(** * blugnu/http: execution engine and mock client

    A shallow embedding of the request-execution pipeline of [barrel.go]
    ([client.parseRequestHeaders], [client.do], [client.Do]), of the
    [request.AcceptStatus] option, and of the mock transport of
    [mockClient.go] / [mockRequest.go] ([mockClient.Do], [Expect],
    [ExpectationsWereMet], [MockRequest.checkExpectations]).

    Modelling choices:
    - Go errors are a tree ([Err]); [%w] wrapping and [errors.Join] are
      nodes with children, and [errors.Is] is the reachability relation
      [err_is] on that tree.
    - A Go [panic] is the [Panic] outcome of a small state-and-panic monad
      [M]; the state is the world the code mutates (transport state and
      the log of submitted requests).
    - [http.Header] ([map[string][]string]) is a [gmap string (list string)];
      header keys are compared exactly as the Go map does.
    - Go [uint] values are [nat]; Go [int] values are [Z]. *)

From Stdlib Require Import Strings.String Strings.Ascii Strings.Byte ZArith List Lia.
From stdpp Require Import base gmap strings list.
Import ListNotations.
Open Scope string_scope.
Set Warnings "-register-all".


(* ------------------------------------------------------------------ *)
(** ** Errors *)

(** The sentinel errors declared in [errors.go]. *)
Inductive Sentinel :=
| ErrInitialisingClient
| ErrInitialisingRequest
| ErrInvalidJSON
| ErrInvalidRequestHeader
| ErrInvalidURL
| ErrMaxRetriesExceeded
| ErrNoResponseBody
| ErrReadingResponseBody
| ErrUnexpectedStatusCode
| ErrCannotChangeExpectations
| ErrUnexpectedRequest.

(** A Go [error] value: a sentinel, an opaque error with a message (e.g. one
    produced by a transport or by [errors.New] in a caller), a wrapping error
    (fmt.Errorf / errorcontext with [%w] verbs, the children being the
    wrapped errors), a join ([errors.Join]) or the aggregate
    [MockExpectationsError]. *)
Inductive Err :=
| ESentinel (s : Sentinel)
| EMsg (msg : string)
| EWrap (msg : string) (wrapped : list Err)
| EJoin (errs : list Err)
| EMockExpectations (name : string) (errs : list Err).

(** [errors.Is e target]: [target] is found in the wrap tree of [e]. *)
Inductive err_is : Err -> Err -> Prop :=
| err_is_refl e : err_is e e
| err_is_wrap msg ws w t : In w ws -> err_is w t -> err_is (EWrap msg ws) t
| err_is_join ws w t : In w ws -> err_is w t -> err_is (EJoin ws) t.

(** [errors.Join]: nil arguments are discarded; the join of no error is nil. *)
Definition errors_Join (errs : list (option Err)) : option Err :=
  match omap id errs with
  | [] => None
  | es => Some (EJoin es)
  end.

(* ------------------------------------------------------------------ *)
(** ** A state and panic monad *)

Inductive outcome (A : Type) :=
| Ret (a : A)
| Panic (reason : Err).
Arguments Ret {A} a.
Arguments Panic {A} reason.

Definition M (S A : Type) : Type := S -> outcome A * S.

Definition mret {S A} (a : A) : M S A := fun s => (Ret a, s).
Definition mpanic {S A} (e : Err) : M S A := fun s => (Panic e, s).
Definition mbind {S A B} (m : M S A) (k : A -> M S B) : M S B :=
  fun s => match m s with
           | (Ret a, s') => k a s'
           | (Panic e, s') => (Panic e, s')
           end.
Definition mget {S} : M S S := fun s => (Ret s, s).
Definition mput {S} (s : S) : M S unit := fun _ => (Ret tt, s).

Notation "'let!' x := m 'in' k" := (mbind m (fun x => k))
  (at level 200, x name, m at level 100, k at level 200).
Notation "'let!' ' p := m 'in' k" := (mbind m (fun x => match x with p => k end))
  (at level 200, p pattern, m at level 100, k at level 200).

(** A runtime panic raised by the Go runtime (index out of range, nil
    dereference). *)
Definition runtime_panic (what : string) : Err := EMsg ("runtime error: " ++ what).

(* ------------------------------------------------------------------ *)
(** ** Requests and responses *)

Definition bytes := list byte.

(** [http.Header]. *)
Abbreviation Header := (gmap string (list string)).

(** The body of a request: Go's [http.NewRequest] with a [nil] body leaves
    [Body == nil]. *)
Inductive ReqBody :=
| NilBody
| ReqBytes (b : bytes).

Record Request := mkRequest {
  rq_Method : string;
  rq_URL : string;          (** [rq.URL.String()] *)
  rq_Header : Header;
  rq_Body : ReqBody
}.

Definition set_rq_Header (rq : Request) (h : Header) : Request :=
  mkRequest rq.(rq_Method) rq.(rq_URL) h rq.(rq_Body).

(** The body of a response: [http.NoBody], an in-memory reader
    ([io.NopCloser(bytes.NewReader(b))]), or a live stream whose
    [io.ReadAll] yields the given bytes and, possibly, an error. *)
Inductive RespBody :=
| NoBody
| BytesReader (b : bytes)
| Stream (data : bytes) (readErr : option Err).

(** [io.ReadAll(body)]. *)
Definition ioReadAll (b : RespBody) : bytes * option Err :=
  match b with
  | NoBody => ([], None)
  | BytesReader d => (d, None)
  | Stream d e => (d, e)
  end.

Record Response := mkResponse {
  r_StatusCode : Z;
  r_Status : string;
  r_Header : Header;
  r_ContentLength : Z;
  r_Body : RespBody
}.

(** What a transport's [Do] returns: the pair of a response pointer and an error. *)
Definition DoResult := (option Response * option Err)%type.

(* ------------------------------------------------------------------ *)
(** ** strconv.Atoi and decimal formatting *)

Definition digit_val (c : ascii) : option Z :=
  let n := nat_of_ascii c in
  if (48 <=? n)%nat && (n <=? 57)%nat then Some (Z.of_nat (n - 48)) else None.

Fixpoint parse_digits (s : string) (acc : Z) : option Z :=
  match s with
  | EmptyString => Some acc
  | String c r =>
      match digit_val c with
      | Some d => parse_digits r (acc * 10 + d)%Z
      | None => None
      end
  end.

Definition int64_min : Z := (- 2 ^ 63)%Z.
Definition int64_max : Z := (2 ^ 63 - 1)%Z.
Definition uint64_mod : Z := (2 ^ 64)%Z.

(** [strconv.Atoi] on a 64-bit platform: an optional sign followed by at
    least one decimal digit, in the range of [int]; anything else is an
    error. *)
Definition Atoi (s : string) : option Z :=
  let unsigned (r : string) :=
    match r with EmptyString => None | _ => parse_digits r 0 end in
  let v :=
    match s with
    | String "-" r => option_map Z.opp (unsigned r)
    | String "+" r => unsigned r
    | _ => unsigned s
    end in
  match v with
  | Some z => if ((int64_min <=? z) && (z <=? int64_max))%Z then Some z else None
  | None => None
  end.

(** The Go conversion [uint(i)] of an [int]. *)
Definition uint_of_int (i : Z) : nat := Z.to_nat (i mod uint64_mod)%Z.

Fixpoint digits_N (fuel : nat) (n : N) (acc : string) : string :=
  match fuel with
  | O => acc
  | S f =>
      let acc' := String (ascii_of_N (48 + N.modulo n 10)) acc in
      if (N.div n 10 =? 0)%N then acc' else digits_N f (N.div n 10) acc'
  end.

(** Decimal formatting of an integer ([strconv.Itoa], [%d]). *)
Definition itoa (z : Z) : string :=
  let n := Z.abs_N z in
  let ds := digits_N (S (N.size_nat n)) n "" in
  if (z <? 0)%Z then "-" ++ ds else ds.

(* ------------------------------------------------------------------ *)
(** ** encoding/json on arrays of integers

    The two uses of [encoding/json] in the code decode a header value into
    a slice of integers ([[]int] in [request.AcceptStatus], [[]uint] in
    [client.parseRequestHeaders]) and encode a [[]int].  Decoding accepts a
    JSON array of integers or [null] (which sets the slice to nil), with
    JSON whitespace between tokens; every other input is an error
    (a syntax error, or a type error for non-integral or out-of-range
    numbers and for non-array values).  A nil slice is [None]. *)

Definition is_ws (c : ascii) : bool :=
  Ascii.eqb c " " || Ascii.eqb c (ascii_of_nat 9) ||
  Ascii.eqb c (ascii_of_nat 10) || Ascii.eqb c (ascii_of_nat 13).

Fixpoint skip_ws (s : string) : string :=
  match s with
  | String c r => if is_ws c then skip_ws r else s
  | EmptyString => s
  end.

Fixpoint take_digits (s : string) (acc : Z) : Z * string :=
  match s with
  | String c r =>
      match digit_val c with
      | Some d => take_digits r (acc * 10 + d)%Z
      | None => (acc, s)
      end
  | EmptyString => (acc, s)
  end.

(** A JSON integer: an optional minus sign, then 0 or a non-zero digit followed by digits. *)
Definition json_integer (s : string) : option (Z * string) :=
  let '(neg, s1) := match s with String "-" r => (true, r) | _ => (false, s) end in
  let sign (v : Z) := if neg then Z.opp v else v in
  match s1 with
  | String "0" r => Some (0%Z, r)
  | String c _ =>
      match digit_val c with
      | Some _ => let '(v, r) := take_digits s1 0 in Some (sign v, r)
      | None => None
      end
  | EmptyString => None
  end.

Fixpoint json_elems (fuel : nat) (s : string) : option (list Z * string) :=
  match fuel with
  | O => None
  | S f =>
      match json_integer (skip_ws s) with
      | None => None
      | Some (z, r) =>
          match skip_ws r with
          | String "," r' =>
              match json_elems f r' with
              | Some (l, r'') => Some (z :: l, r'')
              | None => None
              end
          | String "]" r' => Some ([z], r')
          | _ => None
          end
      end
  end.

Definition is_empty_string (s : string) : bool :=
  match s with EmptyString => true | _ => false end.

Definition json_array (s : string) : option (option (list Z)) :=
  match skip_ws s with
  | String "[" r =>
      let parsed :=
        match skip_ws r with
        | String "]" r' => Some ([], r')
        | _ => json_elems (String.length r) r
        end in
      match parsed with
      | Some (l, rest) => if is_empty_string (skip_ws rest) then Some (Some l) else None
      | None => None
      end
  | String "n" (String "u" (String "l" (String "l" rest))) =>
      if is_empty_string (skip_ws rest) then Some None else None
  | _ => None
  end.

(** [json.Unmarshal(s, &acc)] with [acc : []int]. *)
Definition json_Unmarshal_ints (s : string) : option (option (list Z)) :=
  match json_array s with
  | Some (Some l) =>
      if forallb (fun z => (int64_min <=? z) && (z <=? int64_max))%Z l
      then Some (Some l) else None
  | r => r
  end.

(** [json.Unmarshal(s, &acc)] with [acc : []uint]. *)
Definition json_Unmarshal_uints (s : string) : option (list nat) :=
  match json_array s with
  | Some (Some l) =>
      if forallb (fun z => (0 <=? z) && (z <? uint64_mod))%Z l
      then Some (map Z.to_nat l) else None
  | Some None => Some []
  | None => None
  end.

(** [json.Marshal(acc)] with [acc : []int]. *)
Definition json_Marshal_ints (acc : option (list Z)) : string :=
  match acc with
  | None => "null"
  | Some l => "[" ++ String.concat "," (map itoa l) ++ "]"
  end.

(* ------------------------------------------------------------------ *)
(** ** Reserved directive headers ([request] package) *)

Definition MaxRetriesHeader := "X-Blugnu-Http-Max-Retries".
Definition AcceptStatusHeader := "X-Blugnu-Http-Accept-Status".
Definition ResponseBodyRequiredHeader := "X-Blugnu-Http-Response-Body-Required".
Definition StreamResponseHeader := "X-Blugnu-Http-Stream-Response".

Definition reserved_headers : list string :=
  [MaxRetriesHeader; AcceptStatusHeader; ResponseBodyRequiredHeader; StreamResponseHeader].

(** A request option ([func( *http.Request) error]) acting on the header. *)
Definition RequestOption := M Header (option Err).

(** [request.AcceptStatus(statusCodes...)]. *)
Definition AcceptStatus (statusCodes : list Z) : RequestOption :=
  fun h =>
    let handle (e : Err) := EWrap "request.AcceptStatus" [e] in
    let decoded :=
      match h !! AcceptStatusHeader with
      | None => Ret (Some (Some [200%Z]))
      | Some [] => Panic (runtime_panic "index out of range [0] with length 0")
      | Some (v :: _) => Ret (json_Unmarshal_ints v)
      end in
    match decoded with
    | Panic e => (Panic e, h)
    | Ret None =>
        (Ret (Some (handle (EWrap "invalid json" [ESentinel ErrInvalidJSON; EMsg "json"]))), h)
    | Ret (Some acc) =>
        (* acc = append(acc, statusCodes...): a nil slice stays nil when
           nothing is appended *)
        let acc' := match acc, statusCodes with
                    | None, [] => None
                    | None, l => Some l
                    | Some a, l => Some (a ++ l)%list
                    end in
        (Ret None, <[AcceptStatusHeader := [json_Marshal_ints acc']]> h)
    end.

(** Applying request options in order ([client.NewRequest]): the first
    failing option aborts the remaining ones. *)
Fixpoint apply_options (opts : list RequestOption) : RequestOption :=
  match opts with
  | [] => mret None
  | o :: os =>
      let! e := o in
      match e with
      | Some e => mret (Some e)
      | None => apply_options os
      end
  end.

(* ------------------------------------------------------------------ *)
(** ** The execution engine ([barrel.go]) *)

(** [client]: the wrapped transport is passed separately to [client_Do]. *)
Record client := mkClient {
  c_name : string;
  c_url : string;
  c_maxRetries : nat
}.

Record Directives := mkDirectives {
  maxRetries : nat;
  acceptableStatusCodes : list nat;
  responseBodyRequired : bool;
  streamResponse : bool
}.

(** The local closure [parse] of [parseRequestHeaders]: the header is
    deleted on every exit ([defer delete]), also when [s[0]] panics on a
    header present with no value. *)
Definition parse {A} (hdr : string) (fn : string -> A -> A * option Err) (a : A)
  : M Header (A * option Err) :=
  fun h =>
    let h' := delete hdr h in
    match h !! hdr with
    | None => (Ret (a, None), h')
    | Some [] => (Panic (runtime_panic "index out of range [0] with length 0"), h')
    | Some (s :: _) =>
        let '(a', e) := fn s a in
        (Ret (a', option_map (fun e =>
           EWrap ("invalid request headers: " ++ hdr) [ESentinel ErrInvalidRequestHeader; e]) e), h')
    end.

(** [client.parseRequestHeaders].  On a decoding error the closures leave
    the parsed value as it was; [client.Do] does not use the values when an
    error is returned. *)
Definition parseRequestHeaders (c : client) : M Header (Directives * option Err) :=
  let! '(mr, e1) := parse MaxRetriesHeader (fun s mr =>
        match Atoi s with
        | Some i => (uint_of_int i, None)
        | None => (mr, Some (EMsg "strconv.Atoi: invalid syntax"))
        end) c.(c_maxRetries) in
  let! '(codes, e2) := parse AcceptStatusHeader (fun s codes =>
        match json_Unmarshal_uints s with
        | Some l => (l, None)
        | None => (codes, Some (EWrap "invalid json" [ESentinel ErrInvalidJSON; EMsg "json"]))
        end) [200%nat] in
  let! '(br, e3) := parse ResponseBodyRequiredHeader (fun s _ => (String.eqb s "true", None)) false in
  let! '(st, e4) := parse StreamResponseHeader (fun s _ => (String.eqb s "true", None)) false in
  mret (mkDirectives mr codes br st, errors_Join [e1; e2; e3; e4]).

Section Engine.

(** The state of the wrapped transport, and the transport itself
    ([ClientInterface.Do]); it does not modify the request, and it may
    panic. *)
Context {TS : Type}.
Variable transport : Request -> TS -> outcome DoResult * TS.

(** The world [client.Do] acts on: the request object it is given (and
    mutates), the transport's state and, as instrumentation, the log of
    every submission to the transport with its result. *)
Record World := mkWorld {
  w_rq : Request;
  w_ts : TS;
  w_log : list (Request * DoResult)
}.

(** Runs a computation on the request header. *)
Definition on_header {A} (m : M Header A) : M World A :=
  fun w =>
    let '(o, h') := m w.(w_rq).(rq_Header) in
    (o, mkWorld (set_rq_Header w.(w_rq) h') w.(w_ts) w.(w_log)).

(** [c.wrapped.Do(rq)]. *)
Definition submit : M World DoResult :=
  fun w =>
    match transport w.(w_rq) w.(w_ts) with
    | (Ret res, ts') => (Ret res, mkWorld w.(w_rq) ts' (w.(w_log) ++ [(w.(w_rq), res)]))
    | (Panic e, ts') => (Panic e, mkWorld w.(w_rq) ts' w.(w_log))
    end.

(** [uint(r.StatusCode) == sc]. *)
Definition status_is (r : Response) (sc : nat) : bool :=
  Z.eqb (r.(r_StatusCode) mod uint64_mod) (Z.of_nat sc).

(** The loop of [client.do]; [n] is the number of retries remaining. *)
Fixpoint do_loop (retries : nat) (accept : list nat) (n : nat) : M World DoResult :=
  let! '(r, err) := submit in
  match err with
  | Some e =>
      if Nat.eqb retries 0 then mret (r, Some e)
      else match n with
           | O => mret (r, Some (EWrap "http retries exceeded" [ESentinel ErrMaxRetriesExceeded; e]))
           | S n' => do_loop retries accept n'
           end
  | None =>
      match r with
      | None => mpanic (runtime_panic "invalid memory address or nil pointer dereference")
      | Some resp =>
          if existsb (status_is resp) accept then mret (r, None)
          else mret (r, Some (EWrap ("unexpected status code: " ++ resp.(r_Status))
                                   [ESentinel ErrUnexpectedStatusCode]))
      end
  end.

(** [client.do]. *)
Definition client_do (retries : nat) (accept : list nat) : M World DoResult :=
  do_loop retries accept retries.

(** [client.Do]. *)
Definition client_Do (c : client) : M World DoResult :=
  let! w := mget in
  let rq := w.(w_rq) in
  let handle (r : option Response) (e : Err) : DoResult :=
    (r, Some (EWrap (c.(c_name) ++ ": " ++ rq.(rq_Method) ++ " " ++ rq.(rq_URL)) [e])) in
  let! '(d, perr) := on_header (parseRequestHeaders c) in
  match perr with
  | Some e => mret (handle None e)
  | None =>
      let! '(r, err) := client_do d.(maxRetries) d.(acceptableStatusCodes) in
      match err with
      | Some e => mret (handle r e)
      | None =>
          if d.(streamResponse) then mret (r, None) else
          match r with
          | None => mpanic (runtime_panic "invalid memory address or nil pointer dereference")
          | Some resp =>
              let '(body, rerr) := ioReadAll resp.(r_Body) in
              (* r.ContentLength = 0; r.Body = http.NoBody *)
              let r0 := mkResponse resp.(r_StatusCode) resp.(r_Status) resp.(r_Header) 0 NoBody in
              match rerr with
              | Some e => mret (handle (Some r0) (EWrap "response.Body" [e]))
              | None =>
                  match body with
                  | [] =>
                      if d.(responseBodyRequired)
                      then mret (handle (Some r0) (ESentinel ErrNoResponseBody))
                      else mret (Some r0, None)
                  | _ =>
                      mret (Some (mkResponse resp.(r_StatusCode) resp.(r_Status) resp.(r_Header)
                                    (Z.of_nat (length body)) (BytesReader body)), None)
                  end
              end
          end
      end
  end.

End Engine.

Arguments World TS : clear implicits.

(* ------------------------------------------------------------------ *)
(** ** The mock transport ([mockClient.go], [mockRequest.go]) *)

(** [mockResponse]. *)
Record mockResponse := mkMockResponse {
  mresp_headers : gmap string string;
  mresp_statusCode : option Z;
  mresp_body : bytes;
  mresp_Err : option Err
}.

(** [MockRequest]; the [client] back-pointer is not needed, and the field
    [Response] is [mr_Response]. *)
Record MockRequest := mkMockRequest {
  index : Z;
  method : option string;
  body : option bytes;
  url : string;
  headers : gmap string (option string);
  actual : option Request;
  isExpected : bool;
  mr_Response : option mockResponse
}.

Definition set_actual (e : MockRequest) (rq : Request) : MockRequest :=
  mkMockRequest e.(index) e.(method) e.(body) e.(url) e.(headers) (Some rq)
    e.(isExpected) e.(mr_Response).

(** [mockClient]. *)
Record mockClient := mkMockClient {
  mc_name : string;
  hostname : string;
  expectations : list MockRequest;
  unexpected : list Request;
  next : Z
}.

Definition firstExpectedRequest : Z := 0.
Definition noExpectedRequests : Z := -1.

(** The mock part of [NewMockClient]. *)
Definition NewMockClient (name : string) : mockClient :=
  mkMockClient name "mock://hostname" [] [] noExpectedRequests.

(** [mockClient.Reset]. *)
Definition Reset (m : mockClient) : mockClient :=
  mkMockClient m.(mc_name) m.(hostname) [] [] noExpectedRequests.

Definition record_unexpected (m : mockClient) (rq : Request) : mockClient :=
  mkMockClient m.(mc_name) m.(hostname) m.(expectations)
    (m.(unexpected) ++ [rq]) m.(next).

Section MockTransport.

(** Library functions the response synthesis uses: [http.DetectContentType]
    (content sniffing of [httptest.ResponseRecorder.Write]),
    [http.StatusText], and the package hook [writeBody] (the recorder's
    [Write], replaced in tests to inject a failure). *)
Variable DetectContentType : bytes -> string.
Variable StatusText : Z -> string.
Variable writeBody : bytes -> option Err.

(** [httptest.ResponseRecorder.Result()]: [ContentLength] is parsed from a
    [Content-Length] header when there is one, and is -1 otherwise. *)
Definition recorder_Result (code : Z) (hdr : Header) (b : RespBody) : Response :=
  let cl := match hdr !! "Content-Length" with
            | Some (v :: _) =>
                match Atoi v with Some n => if (0 <=? n)%Z then n else (-1)%Z | None => (-1)%Z end
            | _ => (-1)%Z
            end in
  mkResponse code (itoa code ++ " " ++ StatusText code) hdr cl b.

(** [mockClient.defaultResponse]. *)
Definition defaultResponse (expected : MockRequest) : DoResult :=
  match expected.(mr_Response) with
  | None => (Some (recorder_Result 200 ∅ NoBody), None)
  | Some resp =>
      let hdr : Header := fmap (fun v => [v]) resp.(mresp_headers) in
      let b := resp.(mresp_body) in
      let bodyerr := match b with [] => None | _ => writeBody b end in
      match bodyerr with
      | Some e => (None, Some e)
      | None =>
          (* without an explicit WriteHeader, the first Write sniffs a
             Content-Type (unless one is set) and writes status 200 *)
          let hdr' :=
            match resp.(mresp_statusCode), b with
            | None, _ :: _ =>
                match hdr !! "Content-Type" with
                | Some _ => hdr
                | None => <["Content-Type" := [DetectContentType b]]> hdr
                end
            | _, _ => hdr
            end in
          let code := match resp.(mresp_statusCode) with Some c => c | None => 200%Z end in
          let rb := match b with [] => NoBody | _ => BytesReader b end in
          (Some (recorder_Result code hdr' rb), resp.(mresp_Err))
      end
  end.

(** [mockClient.Do]. *)
Definition mock_Do (rq : Request) (m : mockClient) : outcome DoResult * mockClient :=
  let unexpected_request (m' : mockClient) :=
    (Ret (None, Some (ESentinel ErrUnexpectedRequest)), record_unexpected m' rq) in
  if negb (m.(next) =? noExpectedRequests)%Z && (m.(next) <? Z.of_nat (length m.(expectations)))%Z
  then
    if (m.(next) <? 0)%Z then (Panic (runtime_panic "index out of range"), m) else
    match m.(expectations) !! Z.to_nat m.(next) with
    | None => (Panic (runtime_panic "index out of range"), m)
    | Some expected =>
        let expected' := set_actual expected rq in
        let m' := mkMockClient m.(mc_name) m.(hostname)
                    (<[Z.to_nat m.(next) := expected']> m.(expectations))
                    m.(unexpected) (m.(next) + 1) in
        if negb expected.(isExpected)
        then unexpected_request m'
        else (Ret (defaultResponse expected'), m')
    end
  else unexpected_request m.

End MockTransport.

(** [url.JoinPath(base, path)] for the fixed, valid base url of the mock:
    the path is appended after a single separator (the cleaning of [.] and
    [..] segments and the escaping of the path are not modelled; none of
    the properties below depends on the joined url). *)
Definition url_JoinPath (base path : string) : option string :=
  match path with
  | String "/" p => Some (base ++ "/" ++ p)
  | _ => Some (base ++ "/" ++ path)
  end.

(** [mockClient.Expect]: returns the index of the new expectation (the Go
    code returns a pointer to it). *)
Definition Expect (meth path : string) : M mockClient nat :=
  fun m =>
    if (0 <? m.(next))%Z then
      (Panic (EWrap (m.(mc_name) ++ ": expectations cannot be changed: requests have already been made")
                [ESentinel ErrCannotChangeExpectations]), m)
    else
      match url_JoinPath m.(hostname) path with
      | None => (Panic (EWrap "invalid url" [ESentinel ErrInvalidURL]), m)
      | Some fqu =>
          let i := length m.(expectations) in
          let rq := mkMockRequest (Z.of_nat i) (Some meth) None fqu ∅ None true None in
          let exps := (m.(expectations) ++ [rq])%list in
          let nxt := if Nat.eqb (length exps) 1 then 0%Z else m.(next) in
          (Ret i, mkMockClient m.(mc_name) m.(hostname) exps m.(unexpected) nxt)
      end.

Definition ExpectDelete (path : string) := Expect "DELETE" path.
Definition ExpectGet (path : string) := Expect "GET" path.
Definition ExpectPatch (path : string) := Expect "PATCH" path.
Definition ExpectPost (path : string) := Expect "POST" path.
Definition ExpectPut (path : string) := Expect "PUT" path.

(** Builder methods of [MockRequest], on the expectation at index [i]. *)
Definition update_expectation (i : nat) (f : MockRequest -> MockRequest) (m : mockClient) : mockClient :=
  mkMockClient m.(mc_name) m.(hostname) (alter f i m.(expectations)) m.(unexpected) m.(next).

Definition WithBody (i : nat) (b : bytes) : mockClient -> mockClient :=
  update_expectation i (fun e => mkMockRequest e.(index) e.(method) (Some b) e.(url)
                                   e.(headers) e.(actual) e.(isExpected) e.(mr_Response)).

Definition WithNonCanonicalHeader (i : nat) (k : string) (v : option string) : mockClient -> mockClient :=
  update_expectation i (fun e => mkMockRequest e.(index) e.(method) e.(body) e.(url)
                                   (<[k := v]> e.(headers)) e.(actual) e.(isExpected) e.(mr_Response)).

Definition WillNotBeCalled (i : nat) : mockClient -> mockClient :=
  update_expectation i (fun e => mkMockRequest e.(index) e.(method) e.(body) e.(url)
                                   e.(headers) e.(actual) false e.(mr_Response)).

Definition WillReturnError (i : nat) (err : Err) : mockClient -> mockClient :=
  update_expectation i (fun e => mkMockRequest e.(index) e.(method) e.(body) e.(url)
                                   e.(headers) e.(actual) e.(isExpected)
                                   (Some (mkMockResponse ∅ None [] (Some err)))).

(* ------------------------------------------------------------------ *)
(** ** Expectation checks ([MockRequest.checkExpectations]) *)

Definition obind {A B} (o : outcome A) (k : A -> outcome B) : outcome B :=
  match o with Ret a => k a | Panic e => Panic e end.

Fixpoint omapM {A B} (f : A -> outcome B) (l : list A) : outcome (list B) :=
  match l with
  | [] => Ret []
  | x :: xs => obind (f x) (fun y => obind (omapM f xs) (fun ys => Ret (y :: ys)))
  end.

(** [av[0]] on a header's values. *)
Definition first_value (vs : list string) : outcome string :=
  match vs with
  | v :: _ => Ret v
  | [] => Panic (runtime_panic "index out of range [0] with length 0")
  end.

(** [checkMethodExpectation]. *)
Definition checkMethodExpectation (rq : MockRequest) (a : Request) : list string :=
  match rq.(method) with
  | Some m => if String.eqb m a.(rq_Method) then []
              else ["expected method: " ++ m; "   got         : " ++ a.(rq_Method)]
  | None => []
  end.

(** [checkURLExpectation]. *)
Definition checkURLExpectation (rq : MockRequest) (a : Request) : list string :=
  let u := if String.eqb rq.(url) "" then "<not specified>" else rq.(url) in
  if String.eqb rq.(url) a.(rq_URL) then []
  else ["expected url: " ++ u; "   got      : " ++ a.(rq_URL)].

(** The dump of the actual headers in a "header not set" report.  The Go
    code ranges over maps, in an unspecified order; the model uses the
    order of [map_to_list]. *)
Definition dump_headers (h : Header) : outcome (list string) :=
  obind (omapM (fun kv => obind (first_value kv.2) (fun v =>
                   Ret ("             " ++ kv.1 ++ ": " ++ v))) (map_to_list h))
        (fun lines => Ret (app ("           got: [" :: lines) ["           ]"])).

Definition check_header (a : Request) (k : string) (v : option string) : outcome (list string) :=
  obind (match a.(rq_Header) !! k with
         | Some av => obind (first_value av) (fun s => Ret (true, s))
         | None => Ret (false, "")
         end) (fun '(present, avs) =>
  match present, v with
  | false, None => obind (dump_headers a.(rq_Header)) (fun d => Ret (("header not set: " ++ k) :: d))
  | false, Some w => obind (dump_headers a.(rq_Header)) (fun d => Ret (("header not set: " ++ k ++ ": " ++ w) :: d))
  | true, Some w =>
      if String.eqb avs w then Ret []
      else Ret ["expected header: " ++ k ++ ": " ++ w; "   got         : " ++ k ++ ": " ++ avs]
  | true, None => Ret []
  end).

(** [checkHeadersExpectation]. *)
Definition checkHeadersExpectation (rq : MockRequest) (a : Request) : outcome (list string) :=
  obind (omapM (fun kv => check_header a kv.1 kv.2) (map_to_list rq.(headers)))
        (fun rpts => Ret (List.concat rpts)).

Definition bytes_eqb (x y : bytes) : bool :=
  if List.list_eq_dec Byte.byte_eq_dec x y then true else false.

Fixpoint split_lines (b : bytes) : list bytes :=
  match b with
  | [] => [[]]
  | c :: r =>
      let rest := split_lines r in
      if Byte.eqb c x0a then [] :: rest
      else match rest with
           | l :: ls => (c :: l) :: ls
           | [] => [[c]]
           end
  end.

(** [checkBodyExpectation]: reading [rq.actual.Body] dereferences it. *)
Definition checkBodyExpectation (rq : MockRequest) (a : Request) : outcome (list string) :=
  match rq.(body) with
  | None => Ret []
  | Some expected =>
      match a.(rq_Body) with
      | NilBody => Panic (runtime_panic "invalid memory address or nil pointer dereference")
      | ReqBytes act =>
          if bytes_eqb expected act then Ret [] else
          match expected, act with
          | [], _ => Ret ["expected: <no body>"; "   got  : " ++ itoa (Z.of_nat (length act)) ++ " bytes"]
          | _, [] => Ret ["expected: " ++ itoa (Z.of_nat (length expected)) ++ " bytes"; "   got  : <no body>"]
          | _, _ =>
              let dump (b : bytes) := map (fun l => "         |" ++ string_of_list_byte l) (split_lines b) in
              Ret (app ["request body differs from expected"; "   got   :_________"]
                    (app (dump act) (app ["   wanted:_________"] (dump expected))))
          end
      end
  end.

(** [MockRequest.checkExpectations]; [nil] and an empty report are both
    the empty list. *)
Definition checkExpectations (rq : MockRequest) : outcome (list string) :=
  if negb rq.(isExpected) then
    match rq.(actual) with
    | None => Ret []
    | Some a => Ret ["  got: " ++ a.(rq_Method) ++ " " ++ a.(rq_URL)]
    end
  else
    match rq.(actual) with
    | None => Ret ["  got: <no request>"]
    | Some a =>
        obind (checkHeadersExpectation rq a) (fun hs =>
        obind (checkBodyExpectation rq a) (fun bs =>
        Ret (app (checkMethodExpectation rq a) (app (checkURLExpectation rq a) (app hs bs)))))
    end.

(** The lines [ExpectationsWereMet] reports for one expectation. *)
Definition expectation_report (rq : MockRequest) (rpt : list string) : list Err :=
  match rpt with
  | [] => []
  | _ =>
      let m := match rq.(method) with Some m => m | None => "<ANY METHOD>" end in
      EMsg ("request #" ++ itoa (rq.(index) + 1) ++ ": expecting: " ++ m ++ " " ++ rq.(url))
        :: map (fun s => EMsg ("   " ++ s)) rpt
  end.

Definition unexpected_report (nexp : nat) (ix : nat) (rq : Request) : Err :=
  EMsg ("request #" ++ itoa (Z.of_nat (nexp + ix + 1)) ++ ": unexpected: "
        ++ rq.(rq_Method) ++ " " ++ rq.(rq_URL)).

(** [mockClient.ExpectationsWereMet]. *)
Definition ExpectationsWereMet (m : mockClient) : outcome (option Err) :=
  obind (omapM (fun rq => obind (checkExpectations rq) (fun rpt => Ret (expectation_report rq rpt)))
               m.(expectations)) (fun reps =>
  let errs := app (List.concat reps)
                  (imap (unexpected_report (length m.(expectations))) m.(unexpected)) in
  match errs with
  | [] => Ret None
  | _ => Ret (Some (EMockExpectations m.(mc_name) errs))
  end).

(* ------------------------------------------------------------------ *)
(** ** Header keys ([net/textproto], used by [http.Header] and the
    [request] options) *)

(** The bitmap of [textproto.validHeaderFieldByte]: digits, letters and
    the token characters [! # $ % & ' * + - . ^ _ ` | ~].  Go tests the
    bit in two 64-bit halves; a byte of 128 or more has no bit set. *)
Definition validHeaderFieldByte_mask : Z :=
  fold_right Z.lor 0%Z
    [Z.shiftl (Z.ones 10) 48; Z.shiftl (Z.ones 26) 97; Z.shiftl (Z.ones 26) 65;
     Z.shiftl 1 33; Z.shiftl 1 35; Z.shiftl 1 36; Z.shiftl 1 37; Z.shiftl 1 38;
     Z.shiftl 1 39; Z.shiftl 1 42; Z.shiftl 1 43; Z.shiftl 1 45; Z.shiftl 1 46;
     Z.shiftl 1 94; Z.shiftl 1 95; Z.shiftl 1 96; Z.shiftl 1 124; Z.shiftl 1 126]%Z.

Definition validHeaderFieldByte (c : ascii) : bool :=
  Z.testbit validHeaderFieldByte_mask (Z.of_nat (nat_of_ascii c)).

Definition is_lower (c : ascii) : bool :=
  (97 <=? nat_of_ascii c)%nat && (nat_of_ascii c <=? 122)%nat.
Definition is_upper (c : ascii) : bool :=
  (65 <=? nat_of_ascii c)%nat && (nat_of_ascii c <=? 90)%nat.

(** [toLower] is ['a' - 'A'] = 32. *)
Definition canon_byte (upper : bool) (c : ascii) : ascii :=
  if upper && is_lower c then ascii_of_nat (nat_of_ascii c - 32)
  else if negb upper && is_upper c then ascii_of_nat (nat_of_ascii c + 32)
  else c.

(** The rewriting loop of [textproto.canonicalMIMEHeaderKey]: upper case
    at the start and after each dash, lower case elsewhere. *)
Fixpoint canon_bytes (upper : bool) (s : string) : string :=
  match s with
  | EmptyString => EmptyString
  | String c r => let c' := canon_byte upper c in String c' (canon_bytes (Ascii.eqb c' "-") r)
  end.

(** [textproto.canonicalMIMEHeaderKey(a)]: a key with a byte that is not a
    token byte is returned unchanged (with [ok = false], or [ok = true] when
    the only such bytes are spaces); the lookup in [commonHeader] only
    interns the result. *)
Definition canonicalMIMEHeaderKey (a : string) : string * bool :=
  if forallb (fun c => validHeaderFieldByte c || Ascii.eqb c " ") (list_ascii_of_string a) then
    if existsb (fun c => Ascii.eqb c " ") (list_ascii_of_string a) then (a, true)
    else (canon_bytes true a, true)
  else (a, false).

(** The quick check of [textproto.CanonicalMIMEHeaderKey] over the bytes
    [s] of the key [s0]. *)
Fixpoint canonical_quick (upper : bool) (s0 s : string) : string :=
  match s with
  | EmptyString => s0
  | String c r =>
      if negb (validHeaderFieldByte c) then s0
      else if (upper && is_lower c) || (negb upper && is_upper c)
      then fst (canonicalMIMEHeaderKey s0)
      else canonical_quick (Ascii.eqb c "-") s0 r
  end.

(** [textproto.CanonicalMIMEHeaderKey]. *)
Definition CanonicalMIMEHeaderKey (s : string) : string := canonical_quick true s s.

(** [http.Header.Set]. *)
Definition Header_Set (k v : string) (h : Header) : Header :=
  <[CanonicalMIMEHeaderKey k := [v]]> h.

(** [http.Header.Add]: appends to the values of the canonical key. *)
Definition Header_Add (k v : string) (h : Header) : Header :=
  let key := CanonicalMIMEHeaderKey k in
  <[key := match h !! key with Some vs => vs ++ [v] | None => [v] end%list]> h.

(** [http.Header.Get]: the first value of the canonical key, or [""]. *)
Definition Header_Get (k : string) (h : Header) : string :=
  match h !! CanonicalMIMEHeaderKey k with
  | Some (v :: _) => v
  | _ => ""
  end.

(* ------------------------------------------------------------------ *)
(** ** The header options of the [request] package *)

(** The Go conversion [int(n)] of a [uint] (64 bits). *)
Definition int_of_uint (n : nat) : Z :=
  let z := Z.of_nat n in
  if (z <? 2 ^ 63)%Z then z else (z - uint64_mod)%Z.

Module request.

(** [request.Header(k, v)]. *)
Definition Header (k v : string) : RequestOption :=
  fun h => (Ret None, Header_Set k v h).

(** [request.NonCanonicalHeader(k, v)]. *)
Definition NonCanonicalHeader (k v : string) : RequestOption :=
  fun h => (Ret None, <[k := [v]]> h).

(** [request.ContentType(s)]. *)
Definition ContentType (s : string) : RequestOption :=
  fun h => (Ret None, Header_Set "Content-Type" s h).

(** [request.Accept(contentType)]. *)
Definition Accept (contentType : string) : RequestOption :=
  fun h => (Ret None, Header_Add "Accept" contentType h).

(** [request.AcceptJSON()]. *)
Definition AcceptJSON : RequestOption :=
  fun h => (Ret None, Header_Add "Accept" "application/json" h).

(** [request.MaxRetries(n)]: [strconv.Itoa(int(n))]. *)
Definition MaxRetries (n : nat) : RequestOption :=
  fun h => (Ret None, <[MaxRetriesHeader := [itoa (int_of_uint n)]]> h).

(** [request.ResponseBodyRequired()]. *)
Definition ResponseBodyRequired : RequestOption :=
  fun h => (Ret None, <[ResponseBodyRequiredHeader := ["true"]]> h).

(** [request.StreamResponse()]: a [func( *http.Request)] with no error. *)
Definition StreamResponse (h : gmap string (list string)) : gmap string (list string) :=
  <[StreamResponseHeader := ["true"]]> h.

End request.

(* ------------------------------------------------------------------ *)
(** ** Client construction ([NewClient] and the client options) *)

(** [ClientOption]: a function that updates the client and may fail.  The
    wrapped transport is passed separately to [client_Do], so the option
    [Using] is not modelled here. *)
Definition ClientOption := client -> client * option Err.

(** The client option [MaxRetries(n)]. *)
Definition MaxRetries (n : nat) : ClientOption :=
  fun c => (mkClient c.(c_name) c.(c_url) n, None).

(** [NewClient(name, opts...)]: every option is applied, in order, and the
    errors of all failing options are collected; if there is any, the
    result is [fmt.Errorf("%w: %w", ErrInitialisingClient,
    errors.Join(errs...))] (the join of non-nil errors) and no client. *)
Definition NewClient (name : string) (opts : list ClientOption) : option client * option Err :=
  let '(w, errs) :=
    fold_left (fun (acc : client * list Err) (opt : ClientOption) =>
                 let '(c, errs) := acc in
                 let '(c', e) := opt c in
                 (c', match e with Some e => (errs ++ [e])%list | None => errs end))
              opts (mkClient name "" 0, []) in
  match errs with
  | [] => (Some w, None)
  | _ => (None, Some (EWrap "" [ESentinel ErrInitialisingClient; EJoin errs]))
  end.

(** [MockRequest.WithHeader(k, v...)]: the key is canonicalised, then as
    [WithNonCanonicalHeader]. *)
Definition WithHeader (i : nat) (k : string) (v : option string) : mockClient -> mockClient :=
  WithNonCanonicalHeader i (CanonicalMIMEHeaderKey k) v.

(* ------------------------------------------------------------------ *)
(** ** Sample inputs *)

(** A 200 response with the given body, as a transport returns it. *)
Definition sample_response (b : RespBody) : Response :=
  mkResponse 200 "200 OK" ∅ (-1) b.

(** A transport that answers every request with [resp]; its state counts
    the submissions. *)
Definition responding_transport (resp : Response) : Request -> nat -> outcome DoResult * nat :=
  fun _ n => (Ret (Some resp, None), S n).

Definition sample_request (h : Header) : Request :=
  mkRequest "GET" "mock://hostname/x" h NilBody.

(** A transport that always fails with [e]; its state counts the
    submissions. *)
Definition failing_transport (e : Err) : Request -> nat -> outcome DoResult * nat :=
  fun _ n => (Ret (None, Some e), S n).

(** A transport that plays back a script of results, one per submission,
    and fails once the script is exhausted. *)
Definition scripted_transport (rq : Request) (script : list DoResult) : outcome DoResult * list DoResult :=
  match script with
  | [] => (Ret (None, Some (EMsg "connection refused")), [])
  | r :: rs => (Ret r, rs)
  end.

(* ================================================================== *)
(** * Properties *)

Open Scope list_scope.

(** The error of the last submission in a log. *)
Definition last_error (log : list (Request * DoResult)) : option Err :=
  match last log with
  | Some (_, (_, Some e)) => Some e
  | _ => None
  end.

(** The part of a header value the directive parser can observe: whether
    the key is present, and its first value. *)
Definition first_of (o : option (list string)) : option (option string) :=
  match o with
  | None => None
  | Some [] => Some None
  | Some (v :: _) => Some (Some v)
  end.

(** A status code a Go [int] holds and [json.Unmarshal] accepts as a [uint]. *)
Definition code_range (x : Z) : Prop := (0 <= x < 2 ^ 63)%Z.

(** One step of the option loop of [NewClient]. *)
Definition client_step (acc : client * list Err) (opt : ClientOption) : client * list Err :=
  let '(c, errs) := acc in
  let '(c', e) := opt c in
  (c', match e with Some e => (errs ++ [e])%list | None => errs end).

(** The mock transport applied to a sequence of requests, in order. *)
Definition mock_run DCT ST WB (rqs : list Request) (m : mockClient) : mockClient :=
  fold_left (fun m rq => snd (mock_Do DCT ST WB rq m)) rqs m.



(** Two headers that differ at most in the values after the first one of
    key [k]. *)
Definition same_head (k : string) (h1 h2 : Header) : Prop :=
  h1 = h2 \/ (delete k h1 = delete k h2 /\ first_of (h1 !! k) = first_of (h2 !! k)).

(** A computation on a header that cannot distinguish [E]-related headers
    and keeps them related. *)
Definition respects {A} (E : Header -> Header -> Prop) (m : M Header A) : Prop :=
  forall h1 h2, E h1 h2 -> fst (m h1) = fst (m h2) /\ E (snd (m h1)) (snd (m h2)).

Section EngineFacts.

Context {TS : Type}.
Variable transport : Request -> TS -> outcome DoResult * TS.

(** Submitting leaves the request unchanged and appends one log entry. *)
Lemma do_loop_frame retries accept n (w : World TS) :
  let '(_, w') := do_loop transport retries accept n w in
  w'.(w_rq) = w.(w_rq) /\
  exists new, w'.(w_log) = w.(w_log) ++ new /\ Forall (fun e => e.1 = w.(w_rq)) new.
Proof.
  revert w. induction n as [|n IH]; intros w; simpl;
    unfold mbind, submit;
    destruct (transport (w_rq w) (w_ts w)) as [[[r e]|p] ts'] eqn:Ht; simpl;
    try (split; [reflexivity | exists []; split; [by rewrite app_nil_r | constructor]]).
  - destruct e as [e|]; [destruct (Nat.eqb retries 0)|destruct r as [resp|]];
      try destruct (existsb _ _);
      (split; [reflexivity | eexists; split; [reflexivity | repeat constructor]]).
  - destruct e as [e|].
    + destruct (Nat.eqb retries 0).
      * split; [reflexivity | eexists; split; [reflexivity | repeat constructor]].
      * specialize (IH (mkWorld (w_rq w) ts' (w_log w ++ [(w_rq w, (r, Some e))]))).
        destruct (do_loop transport retries accept n _) as [o w'].
        destruct IH as [Hrq [new [Hlog Hnew]]]. simpl in *.
        split; [exact Hrq|].
        exists ((w_rq w, (r, Some e)) :: new). split.
        -- rewrite Hlog, <- app_assoc. reflexivity.
        -- constructor; [reflexivity | exact Hnew].
    + destruct r as [resp|]; try destruct (existsb _ _);
        (split; [reflexivity | eexists; split; [reflexivity | repeat constructor]]).
Qed.

(** The loop returns a response without error only when the last
    submission returned it, with an acceptable status code. *)
Lemma do_loop_ok retries accept n (w : World TS) r w' :
  do_loop transport retries accept n w = (Ret (Some r, None), w') ->
  last w'.(w_log) = Some (w.(w_rq), (Some r, None)) /\ existsb (status_is r) accept = true.
Proof.
  revert w. induction n as [|n IH]; intros w; simpl; unfold mbind, submit;
    destruct (transport (w_rq w) (w_ts w)) as [[[r0 e]|p] ts'] eqn:Ht; simpl;
    try discriminate.
  - destruct e as [e|]; [destruct (Nat.eqb retries 0); discriminate|].
    destruct r0 as [resp|]; [|discriminate].
    destruct (existsb (status_is resp) accept) eqn:Ha; [|discriminate].
    intros [= <- <-]. simpl. rewrite last_snoc. split; [reflexivity | exact Ha].
  - destruct e as [e|].
    + destruct (Nat.eqb retries 0); [discriminate|].
      intros H. apply IH in H. exact H.
    + destruct r0 as [resp|]; [|discriminate].
      destruct (existsb (status_is resp) accept) eqn:Ha; [|discriminate].
      intros [= <- <-]. simpl. rewrite last_snoc. split; [reflexivity | exact Ha].
Qed.

Hypothesis always_fails :
  forall rq s, exists r e s', transport rq s = (Ret (r, Some e), s').

(** Against a failing transport, with retries configured, the loop makes
    [n + 1] submissions and returns the retries-exceeded error wrapping the
    last transport error. *)
Lemma do_loop_exhausts retries accept n (w : World TS) :
  retries <> 0 ->
  match do_loop transport retries accept n w with
  | (Ret (_, Some e), w') =>
      length w'.(w_log) = length w.(w_log) + S n /\
      exists el, last_error w'.(w_log) = Some el /\
                 e = EWrap "http retries exceeded" [ESentinel ErrMaxRetriesExceeded; el]
  | _ => False
  end.
Proof.
  intros Hr. revert w. induction n as [|n IH]; intros w; simpl;
    unfold mbind, submit;
    destruct (always_fails (w_rq w) (w_ts w)) as [r [e [s' Ht]]]; rewrite Ht;
    apply Nat.eqb_neq in Hr; rewrite Hr.
  - simpl. split.
    + rewrite length_app. simpl. lia.
    + exists e. split; [|reflexivity].
      unfold last_error. rewrite last_snoc. reflexivity.
  - specialize (IH (mkWorld (w_rq w) s' (w_log w ++ [(w_rq w, (r, Some e))]))).
    destruct (do_loop transport retries accept n _) as [[[r' [e'|]]|p] w'];
      try contradiction.
    destruct IH as [Hlen Hlast]. simpl in Hlen. rewrite length_app in Hlen.
    simpl in Hlen. split; [lia | exact Hlast].
Qed.

End EngineFacts.

(** ** C1: retry counting *)

(** C1. For a request whose effective max-retries value N (parsed from the
    max-retries header, or the client default) is at least 1, against a
    transport that always fails, [client.Do] submits the request exactly
    N+1 times and returns an error that is both [ErrMaxRetriesExceeded] and
    the last transport error. *)
Theorem Do_retry_counting {TS} (transport : Request -> TS -> outcome DoResult * TS)
  (always_fails : forall rq s, exists r e s', transport rq s = (Ret (r, Some e), s'))
  (c : client) (w : World TS) (d : Directives) (h' : Header) :
  parseRequestHeaders c w.(w_rq).(rq_Header) = (Ret (d, None), h') ->
  (1 <= d.(maxRetries))%nat ->
  match client_Do transport c w with
  | (Ret (_, Some e), w') =>
      length w'.(w_log) = (length w.(w_log) + (d.(maxRetries) + 1))%nat /\
      exists el, last_error w'.(w_log) = Some el /\
        err_is e (ESentinel ErrMaxRetriesExceeded) /\ err_is e el
  | _ => False
  end.
Proof.
  intros Hp Hn. unfold client_Do, mbind, mget, on_header. rewrite Hp.
  unfold client_do.
  pose proof (do_loop_exhausts transport always_fails (maxRetries d)
                (acceptableStatusCodes d) (maxRetries d)
                (mkWorld (set_rq_Header (w_rq w) h') (w_ts w) (w_log w))) as H.
  destruct (do_loop _ _ _ _ _) as [[[r [e|]]|p] w']; simpl in H |- *;
    try (exfalso; apply H; lia).
  destruct H as [Hlen [el [Hlast ->]]]; [lia|].
  split; [lia|]. exists el. split; [exact Hlast|]. split.
  - eapply err_is_wrap; [left; reflexivity|].
    eapply err_is_wrap; [left; reflexivity|]. apply err_is_refl.
  - eapply err_is_wrap; [left; reflexivity|].
    eapply err_is_wrap; [right; left; reflexivity|]. apply err_is_refl.
Qed.

(** C1 at a concrete input: client default of 2 retries, no directive
    header, a transport that always fails. *)
Lemma Do_retry_counting_witness :
  parseRequestHeaders (mkClient "name" "" 2) ∅ =
    (Ret (mkDirectives 2 [200%nat] false false, None), ∅) /\
  (1 <= 2)%nat /\
  match client_Do (fun (_ : Request) (n : nat) => (Ret (None, Some (EMsg "permanent failure")), S n))
          (mkClient "name" "" 2) (mkWorld (mkRequest "" "" ∅ NilBody) 0%nat []) with
  | (Ret (_, Some e), w') =>
      length w'.(w_log) = (length (@nil (Request * DoResult)) + (2 + 1))%nat /\
      exists el, last_error w'.(w_log) = Some el /\
        err_is e (ESentinel ErrMaxRetriesExceeded) /\ err_is e el
  | _ => False
  end.
Proof.
  split; [reflexivity|]. split; [lia|].
  exact (Do_retry_counting (fun (_ : Request) (n : nat) => (Ret (None, Some (EMsg "permanent failure")), S n))
           (fun rq s => ex_intro _ None (ex_intro _ (EMsg "permanent failure") (ex_intro _ (S s) eq_refl)))
           (mkClient "name" "" 2) (mkWorld (mkRequest "" "" ∅ NilBody) 0%nat [])
           (mkDirectives 2 [200%nat] false false) ∅ eq_refl (le_n_S 0 1 (Nat.le_0_l 1))).
Defined.

(** ** Directive parsing *)

Lemma parse_snd {A} hdr (fn : string -> A -> A * option Err) a h :
  snd (parse hdr fn a h) = delete hdr h.
Proof.
  unfold parse. destruct (h !! hdr) as [[|s l]|]; [reflexivity| |reflexivity].
  destruct (fn s a). reflexivity.
Qed.

Lemma parse_first {A} hdr (fn : string -> A -> A * option Err) a h s rest :
  h !! hdr = Some (s :: rest) ->
  fst (parse hdr fn a h) =
    Ret ((fn s a).1, option_map (fun e =>
           EWrap ("invalid request headers: " ++ hdr)%string [ESentinel ErrInvalidRequestHeader; e])
           (fn s a).2).
Proof. intros H. unfold parse. rewrite H. destruct (fn s a). reflexivity. Qed.

Ltac step_parse :=
  match goal with
  | |- context [match parse ?k ?f ?a ?h with _ => _ end] =>
      let Hs := fresh "Hs" in let E := fresh "Ep" in
      pose proof (parse_snd k f a h) as Hs;
      destruct (parse k f a h) as [[[? ?]|?] ?] eqn:E; simpl in Hs
  end.

(** When the directives parse without a panic, the header left behind is
    the input with the four reserved keys deleted. *)
Lemma parseRequestHeaders_state c h x h' :
  parseRequestHeaders c h = (Ret x, h') ->
  h' = delete StreamResponseHeader (delete ResponseBodyRequiredHeader
         (delete AcceptStatusHeader (delete MaxRetriesHeader h))).
Proof.
  unfold parseRequestHeaders, mbind, mret.
  step_parse; [|discriminate]. step_parse; [|discriminate].
  step_parse; [|discriminate]. step_parse; [|discriminate].
  intros [= _ <-]. subst. reflexivity.
Qed.

Lemma parseRequestHeaders_strips c h x h' k :
  parseRequestHeaders c h = (Ret x, h') -> In k reserved_headers -> h' !! k = None.
Proof.
  intros Hp Hk. apply parseRequestHeaders_state in Hp. subst h'.
  unfold reserved_headers in Hk.
  destruct Hk as [<-|[<-|[<-|[<-|[]]]]];
    repeat first [ rewrite lookup_delete_eq; reflexivity
                 | rewrite lookup_delete_ne by discriminate ].
Qed.

Lemma mbind_respects {A B} E (m : M Header A) (k : A -> M Header B) :
  respects E m -> (forall a, respects E (k a)) -> respects E (mbind m k).
Proof.
  intros Hm Hk h1 h2 HE. unfold mbind.
  destruct (Hm h1 h2 HE) as [Hf Hs].
  destruct (m h1) as [o1 s1], (m h2) as [o2 s2]. simpl in *. subst o2.
  destruct o1 as [a|p]; [apply Hk; exact Hs | split; [reflexivity | exact Hs]].
Qed.

Lemma mret_respects {A} E (a : A) : respects E (mret a).
Proof. intros h1 h2 HE. split; [reflexivity | exact HE]. Qed.

Lemma parse_respects {A} k hdr (fn : string -> A -> A * option Err) a :
  respects (same_head k) (parse hdr fn a).
Proof.
  intros h1 h2 [<-|[Hd Hf]]; [split; [reflexivity | left; reflexivity]|].
  unfold parse.
  destruct (decide (hdr = k)) as [->|Hne].
  - destruct (h1 !! k) as [[|v1 l1]|], (h2 !! k) as [[|v2 l2]|];
      simpl in Hf; try discriminate; simpl; rewrite Hd;
      try (split; [reflexivity | left; reflexivity]).
    injection Hf as <-. destruct (fn v1 a). split; [reflexivity | left; reflexivity].
  - assert (Hl : h1 !! hdr = h2 !! hdr).
    { rewrite <- (lookup_delete_ne h1 k hdr), <- (lookup_delete_ne h2 k hdr) by congruence.
      rewrite Hd. reflexivity. }
    rewrite Hl.
    assert (Hrel : same_head k (delete hdr h1) (delete hdr h2)).
    { right. split.
      - rewrite (delete_delete h1), (delete_delete h2), Hd. reflexivity.
      - rewrite !lookup_delete_ne by congruence. exact Hf. }
    destruct (h2 !! hdr) as [[|s l]|]; simpl; try (split; [reflexivity | exact Hrel]).
    destruct (fn s a). split; [reflexivity | exact Hrel].
Qed.

Lemma parseRequestHeaders_respects k c : respects (same_head k) (parseRequestHeaders c).
Proof.
  unfold parseRequestHeaders.
  repeat (apply mbind_respects; [apply parse_respects | intros [? ?]]).
  apply mret_respects.
Qed.

(** The acceptable status codes are decoded from the first value of the
    accept-status header. *)
Lemma parseRequestHeaders_codes c h d e h' s rest l :
  parseRequestHeaders c h = (Ret (d, e), h') ->
  h !! AcceptStatusHeader = Some (s :: rest) ->
  json_Unmarshal_uints s = Some l ->
  d.(acceptableStatusCodes) = l.
Proof.
  intros Hp Hh Hj. revert Hp.
  unfold parseRequestHeaders, mbind, mret.
  step_parse; [|discriminate].
  step_parse; [|discriminate].
  apply (f_equal fst) in Ep0. simpl in Ep0.
  rewrite (parse_first _ _ _ _ s rest) in Ep0
    by (subst; rewrite lookup_delete_ne by discriminate; exact Hh).
  rewrite Hj in Ep0. simpl in Ep0. injection Ep0 as <- _.
  step_parse; [|discriminate]. step_parse; [|discriminate].
  intros [= <- _ _]. reflexivity.
Qed.

(** ** C10: only the first value of a directive header is read *)

(** C10. For a reserved directive header carrying several values, the
    parsed directives, errors and panics are those obtained from its first
    value alone, and the header, with all its values, is removed. *)
Theorem parse_reads_first_value (c : client) (h : Header) (k v : string) (vs : list string) :
  In k reserved_headers ->
  fst (parseRequestHeaders c (<[k := v :: vs]> h)) = fst (parseRequestHeaders c (<[k := [v]]> h)) /\
  (forall x h', parseRequestHeaders c (<[k := v :: vs]> h) = (Ret x, h') -> h' !! k = None).
Proof.
  intros Hk. split.
  - apply (parseRequestHeaders_respects k c). right. split.
    + rewrite !delete_insert_eq. reflexivity.
    + rewrite !lookup_insert_eq. reflexivity.
  - intros x h' Hp. exact (parseRequestHeaders_strips c _ x h' k Hp Hk).
Qed.

Lemma parse_reads_first_value_witness :
  In MaxRetriesHeader reserved_headers /\
  fst (parseRequestHeaders (mkClient "name" "" 0) (<[MaxRetriesHeader := ["1"; "invalid"]]> ∅)) =
    fst (parseRequestHeaders (mkClient "name" "" 0) (<[MaxRetriesHeader := ["1"]]> ∅)) /\
  (forall x h', parseRequestHeaders (mkClient "name" "" 0) (<[MaxRetriesHeader := ["1"; "invalid"]]> ∅)
                  = (Ret x, h') -> h' !! MaxRetriesHeader = None).
Proof.
  split; [left; reflexivity|].
  apply (parse_reads_first_value (mkClient "name" "" 0) ∅ MaxRetriesHeader "1" ["invalid"]).
  left; reflexivity.
Defined.

(** ** C2: accept-status accumulation *)

(** C2. Applying [AcceptStatus 404] and then [AcceptStatus 401] to a request
    that has no accept-status header leaves the header ["[200,404,401]"],
    and the execution engine parses it to the codes 200, 404 and 401:
    the default 200 and both added codes are kept. *)
Theorem AcceptStatus_accumulates (c : client) (h : Header) :
  h !! AcceptStatusHeader = None ->
  exists h2,
    apply_options [AcceptStatus [404%Z]; AcceptStatus [401%Z]] h = (Ret None, h2) /\
    h2 !! AcceptStatusHeader = Some ["[200,404,401]"%string] /\
    forall d e h3, parseRequestHeaders c h2 = (Ret (d, e), h3) ->
      d.(acceptableStatusCodes) = [200; 404; 401]%nat /\
      (forall x, In x d.(acceptableStatusCodes) <-> x = 200%nat \/ x = 401%nat \/ x = 404%nat).
Proof.
  intros H.
  exists (<[AcceptStatusHeader := ["[200,404,401]"%string]]> h).
  assert (Happ : apply_options [AcceptStatus [404%Z]; AcceptStatus [401%Z]] h =
                 (Ret None, <[AcceptStatusHeader := ["[200,404,401]"%string]]> h)).
  { unfold apply_options, mbind, mret, AcceptStatus. rewrite H.
    cbv beta iota. rewrite lookup_insert_eq. cbv beta iota.
    replace (json_Unmarshal_ints (json_Marshal_ints (Some ([200%Z] ++ [404%Z]))))
      with (Some (Some [200%Z; 404%Z])) by (vm_compute; reflexivity).
    cbv beta iota. rewrite insert_insert_eq.
    replace (json_Marshal_ints (Some ([200%Z; 404%Z] ++ [401%Z])))
      with "[200,404,401]"%string by (vm_compute; reflexivity).
    reflexivity. }
  split; [exact Happ|]. split; [apply lookup_insert_eq|].
  intros d e h3 Hp.
  assert (Hc : d.(acceptableStatusCodes) = [200; 404; 401]%nat).
  { eapply (parseRequestHeaders_codes c _ d e h3 _ [] _ Hp);
      [apply lookup_insert_eq | reflexivity]. }
  split; [exact Hc|]. rewrite Hc. intros x. simpl. lia.
Qed.

Lemma AcceptStatus_accumulates_witness :
  (∅ : Header) !! AcceptStatusHeader = None /\
  exists h2,
    apply_options [AcceptStatus [404%Z]; AcceptStatus [401%Z]] ∅ = (Ret None, h2) /\
    h2 !! AcceptStatusHeader = Some ["[200,404,401]"%string] /\
    forall d e h3, parseRequestHeaders (mkClient "name" "" 0) h2 = (Ret (d, e), h3) ->
      d.(acceptableStatusCodes) = [200; 404; 401]%nat /\
      (forall x, In x d.(acceptableStatusCodes) <-> x = 200%nat \/ x = 401%nat \/ x = 404%nat).
Proof.
  split; [reflexivity|].
  apply (AcceptStatus_accumulates (mkClient "name" "" 0) ∅). reflexivity.
Defined.

(** ** C6: reserved directive headers never reach the transport *)

(** C6. Every request [client.Do] submits to the transport carries none of
    the four reserved directive headers, and when [client.Do] returns (after
    a successful or a failed parse, a transport error, or a response) the
    request it was given has none of them either. *)
Theorem Do_strips_directive_headers {TS} (transport : Request -> TS -> outcome DoResult * TS)
  (c : client) (w : World TS) :
  let '(o, w') := client_Do transport c w in
  (exists new, w'.(w_log) = w.(w_log) ++ new /\
     Forall (fun e => forall k, In k reserved_headers -> e.1.(rq_Header) !! k = None) new) /\
  (forall r, o = Ret r -> forall k, In k reserved_headers -> w'.(w_rq).(rq_Header) !! k = None).
Proof.
  unfold client_Do, mbind, mget, on_header.
  destruct (parseRequestHeaders c (rq_Header (w_rq w))) as [[[d perr]|p] h'] eqn:Hp.
  - pose proof (fun k => parseRequestHeaders_strips c _ _ h' k Hp) as Hs.
    destruct perr as [e|].
    + simpl. split; [exists []; split; [by rewrite app_nil_r | constructor]|].
      intros _ _ k Hk. exact (Hs k Hk).
    + unfold client_do.
      pose proof (do_loop_frame transport (maxRetries d) (acceptableStatusCodes d) (maxRetries d)
                    (mkWorld (set_rq_Header (w_rq w) h') (w_ts w) (w_log w))) as Hf.
      destruct (do_loop _ _ _ _ _) as [o1 w2].
      destruct Hf as [Hrq [new [Hlog Hnew]]]. simpl in Hrq, Hlog, Hnew.
      assert (Hgoal : (exists new, w_log w2 = w_log w ++ new /\
                Forall (fun e => forall k, In k reserved_headers -> e.1.(rq_Header) !! k = None) new) /\
              (forall k, In k reserved_headers -> w2.(w_rq).(rq_Header) !! k = None)).
      { split.
        - exists new. split; [exact Hlog|].
          eapply Forall_impl; [exact Hnew|]. intros [rq res] Heq k Hk. simpl in Heq.
          subst rq. exact (Hs k Hk).
        - rewrite Hrq. exact Hs. }
      destruct Hgoal as [Hg1 Hg2].
      destruct o1 as [[r [e|]]|p]; simpl;
        [ | destruct (streamResponse d); simpl;
            [ | destruct r as [resp|]; simpl;
                [ destruct (ioReadAll (r_Body resp)) as [b [re|]]; simpl;
                  [ | destruct b; [destruct (responseBodyRequired d)|]] | ]]
        | ];
        (split; [exact Hg1 | intros; apply Hg2; assumption]).
  - simpl. split; [exists []; split; [by rewrite app_nil_r | constructor]|].
    intros r Hr. discriminate.
Qed.

(** ** C4, C5, C9: handling of an accepted response *)

(** The world [client.do] starts from once the directives are parsed. *)
Lemma client_Do_unfold {TS} (transport : Request -> TS -> outcome DoResult * TS)
  (c : client) (w : World TS) d h' :
  parseRequestHeaders c w.(w_rq).(rq_Header) = (Ret (d, None), h') ->
  client_Do transport c w =
    mbind (client_do transport d.(maxRetries) d.(acceptableStatusCodes))
      (fun x => match x with
       | (r, err) =>
           match err with
           | Some e => mret (r, Some (EWrap (c.(c_name) ++ ": " ++ w.(w_rq).(rq_Method) ++ " "
                                             ++ w.(w_rq).(rq_URL))%string [e]))
           | None =>
               if d.(streamResponse) then mret (r, None) else
               match r with
               | None => mpanic (runtime_panic "invalid memory address or nil pointer dereference")
               | Some resp =>
                   let '(body, rerr) := ioReadAll resp.(r_Body) in
                   let r0 := mkResponse resp.(r_StatusCode) resp.(r_Status) resp.(r_Header) 0 NoBody in
                   match rerr with
                   | Some e => mret (Some r0, Some (EWrap (c.(c_name) ++ ": " ++ w.(w_rq).(rq_Method)
                                       ++ " " ++ w.(w_rq).(rq_URL))%string [EWrap "response.Body" [e]]))
                   | None =>
                       match body with
                       | [] =>
                           if d.(responseBodyRequired)
                           then mret (Some r0, Some (EWrap (c.(c_name) ++ ": " ++ w.(w_rq).(rq_Method)
                                       ++ " " ++ w.(w_rq).(rq_URL))%string [ESentinel ErrNoResponseBody]))
                           else mret (Some r0, None)
                       | _ =>
                           mret (Some (mkResponse resp.(r_StatusCode) resp.(r_Status) resp.(r_Header)
                                         (Z.of_nat (length body)) (BytesReader body)), None)
                       end
                   end
               end
           end
       end)
      (mkWorld (set_rq_Header w.(w_rq) h') w.(w_ts) w.(w_log)).
Proof.
  intros Hp. unfold client_Do, mbind, mget, on_header. rewrite Hp. reflexivity.
Qed.

(** C4. With the stream-response directive set, when the transport's
    response is accepted ([client.do] returns it without error: it is the
    last submission's result and its status is acceptable), [client.Do]
    returns that response unchanged and no error, whatever the
    body-required directive says. *)
Theorem Do_stream_passthrough {TS} (transport : Request -> TS -> outcome DoResult * TS)
  (c : client) (w : World TS) d h' r w1 :
  parseRequestHeaders c w.(w_rq).(rq_Header) = (Ret (d, None), h') ->
  d.(streamResponse) = true ->
  client_do transport d.(maxRetries) d.(acceptableStatusCodes)
    (mkWorld (set_rq_Header w.(w_rq) h') w.(w_ts) w.(w_log)) = (Ret (Some r, None), w1) ->
  client_Do transport c w = (Ret (Some r, None), w1) /\
  last w1.(w_log) = Some (set_rq_Header w.(w_rq) h', (Some r, None)) /\
  existsb (status_is r) d.(acceptableStatusCodes) = true.
Proof.
  intros Hp Hs Hd.
  pose proof (do_loop_ok transport _ _ _ _ _ _ Hd) as [Hl Ha].
  split; [|split; [exact Hl | exact Ha]].
  rewrite (client_Do_unfold transport c w d h' Hp). unfold mbind at 1. rewrite Hd.
  rewrite Hs. reflexivity.
Qed.

Lemma Do_stream_passthrough_witness :
  let rq := sample_request (<[StreamResponseHeader := ["true"]]>
                             (<[ResponseBodyRequiredHeader := ["true"]]> ∅)) in
  let resp := sample_response (Stream [] None) in
  let w := mkWorld rq 0%nat [] in
  let d := mkDirectives 0 [200%nat] true true in
  let w1 := mkWorld (set_rq_Header rq ∅) 1%nat [(set_rq_Header rq ∅, (Some resp, None))] in
  parseRequestHeaders (mkClient "name" "" 0) w.(w_rq).(rq_Header) = (Ret (d, None), ∅) /\
  d.(streamResponse) = true /\
  client_do (responding_transport resp) d.(maxRetries) d.(acceptableStatusCodes)
    (mkWorld (set_rq_Header w.(w_rq) ∅) w.(w_ts) w.(w_log)) = (Ret (Some resp, None), w1) /\
  client_Do (responding_transport resp) (mkClient "name" "" 0) w = (Ret (Some resp, None), w1) /\
  last w1.(w_log) = Some (set_rq_Header w.(w_rq) ∅, (Some resp, None)) /\
  existsb (status_is resp) d.(acceptableStatusCodes) = true.
Proof.
  intros rq resp w d w1.
  split; [reflexivity|]. split; [reflexivity|]. split; [reflexivity|].
  apply (Do_stream_passthrough (responding_transport resp) (mkClient "name" "" 0) w d ∅ resp w1);
    reflexivity.
Defined.

(** C5. Without the stream-response directive, when the transport's
    response is accepted and its body reads as a non-empty sequence [B],
    [client.Do] returns the response, with no error, with content-length
    the length of [B] and a body that reads back exactly [B]. *)
Theorem Do_materializes_body {TS} (transport : Request -> TS -> outcome DoResult * TS)
  (c : client) (w : World TS) d h' r w1 (B : bytes) :
  parseRequestHeaders c w.(w_rq).(rq_Header) = (Ret (d, None), h') ->
  d.(streamResponse) = false ->
  client_do transport d.(maxRetries) d.(acceptableStatusCodes)
    (mkWorld (set_rq_Header w.(w_rq) h') w.(w_ts) w.(w_log)) = (Ret (Some r, None), w1) ->
  ioReadAll r.(r_Body) = (B, None) ->
  B <> [] ->
  exists r', client_Do transport c w = (Ret (Some r', None), w1) /\
    r'.(r_StatusCode) = r.(r_StatusCode) /\ r'.(r_Header) = r.(r_Header) /\
    r'.(r_ContentLength) = Z.of_nat (length B) /\ ioReadAll r'.(r_Body) = (B, None).
Proof.
  intros Hp Hs Hd Hr HB.
  rewrite (client_Do_unfold transport c w d h' Hp). unfold mbind at 1. rewrite Hd.
  rewrite Hs. cbv beta iota. rewrite Hr. cbv beta iota.
  destruct B as [|b0 B']; [contradiction|].
  eexists. split; [reflexivity|]. simpl. repeat split.
Qed.

Lemma Do_materializes_body_witness :
  let rq := sample_request ∅ in
  let resp := sample_response (Stream [Byte.x62; Byte.x6f; Byte.x64; Byte.x79] None) in
  let w := mkWorld rq 0%nat [] in
  let d := mkDirectives 0 [200%nat] false false in
  let w1 := mkWorld (set_rq_Header rq ∅) 1%nat [(set_rq_Header rq ∅, (Some resp, None))] in
  let B := [Byte.x62; Byte.x6f; Byte.x64; Byte.x79] in
  parseRequestHeaders (mkClient "name" "" 0) w.(w_rq).(rq_Header) = (Ret (d, None), ∅) /\
  d.(streamResponse) = false /\
  client_do (responding_transport resp) d.(maxRetries) d.(acceptableStatusCodes)
    (mkWorld (set_rq_Header w.(w_rq) ∅) w.(w_ts) w.(w_log)) = (Ret (Some resp, None), w1) /\
  ioReadAll resp.(r_Body) = (B, None) /\
  B <> [] /\
  exists r', client_Do (responding_transport resp) (mkClient "name" "" 0) w = (Ret (Some r', None), w1) /\
    r'.(r_StatusCode) = resp.(r_StatusCode) /\ r'.(r_Header) = resp.(r_Header) /\
    r'.(r_ContentLength) = Z.of_nat (length B) /\ ioReadAll r'.(r_Body) = (B, None).
Proof.
  intros rq resp w d w1 B.
  split; [reflexivity|]. split; [reflexivity|]. split; [reflexivity|].
  split; [reflexivity|]. split; [discriminate|].
  apply (Do_materializes_body (responding_transport resp) (mkClient "name" "" 0) w d ∅ resp w1 B);
    [reflexivity | reflexivity | reflexivity | reflexivity | discriminate].
Defined.

(** C9. Without the stream-response and body-required directives, when the
    transport's response is accepted and its body reads as empty, [client.Do]
    returns the response, with no error, with content-length 0 and the body
    [http.NoBody]. *)
Theorem Do_empty_body_is_NoBody {TS} (transport : Request -> TS -> outcome DoResult * TS)
  (c : client) (w : World TS) d h' r w1 :
  parseRequestHeaders c w.(w_rq).(rq_Header) = (Ret (d, None), h') ->
  d.(streamResponse) = false ->
  d.(responseBodyRequired) = false ->
  client_do transport d.(maxRetries) d.(acceptableStatusCodes)
    (mkWorld (set_rq_Header w.(w_rq) h') w.(w_ts) w.(w_log)) = (Ret (Some r, None), w1) ->
  ioReadAll r.(r_Body) = ([], None) ->
  client_Do transport c w =
    (Ret (Some (mkResponse r.(r_StatusCode) r.(r_Status) r.(r_Header) 0 NoBody), None), w1).
Proof.
  intros Hp Hs Hb Hd Hr.
  rewrite (client_Do_unfold transport c w d h' Hp). unfold mbind at 1. rewrite Hd.
  rewrite Hs. cbv beta iota. rewrite Hr. cbv beta iota. rewrite Hb. reflexivity.
Qed.

Lemma Do_empty_body_is_NoBody_witness :
  let rq := sample_request ∅ in
  let resp := sample_response (Stream [] None) in
  let w := mkWorld rq 0%nat [] in
  let d := mkDirectives 0 [200%nat] false false in
  let w1 := mkWorld (set_rq_Header rq ∅) 1%nat [(set_rq_Header rq ∅, (Some resp, None))] in
  parseRequestHeaders (mkClient "name" "" 0) w.(w_rq).(rq_Header) = (Ret (d, None), ∅) /\
  d.(streamResponse) = false /\
  d.(responseBodyRequired) = false /\
  client_do (responding_transport resp) d.(maxRetries) d.(acceptableStatusCodes)
    (mkWorld (set_rq_Header w.(w_rq) ∅) w.(w_ts) w.(w_log)) = (Ret (Some resp, None), w1) /\
  ioReadAll resp.(r_Body) = ([], None) /\
  client_Do (responding_transport resp) (mkClient "name" "" 0) w =
    (Ret (Some (mkResponse resp.(r_StatusCode) resp.(r_Status) resp.(r_Header) 0 NoBody), None), w1).
Proof.
  intros rq resp w d w1.
  split; [reflexivity|]. split; [reflexivity|]. split; [reflexivity|].
  split; [reflexivity|]. split; [reflexivity|].
  apply (Do_empty_body_is_NoBody (responding_transport resp) (mkClient "name" "" 0) w d ∅ resp w1);
    reflexivity.
Defined.

(** ** The mock transport *)

Section MockFacts.

Variable DetectContentType : bytes -> string.
Variable StatusText : Z -> string.
Variable writeBody : bytes -> option Err.

(** The cursor is never below the "no expectations" sentinel: this holds
    for a new mock and is kept by every operation. *)
Lemma NewMockClient_next name : (-1 <= (NewMockClient name).(next))%Z.
Proof. simpl. unfold noExpectedRequests. lia. Qed.

Lemma Reset_next m : (-1 <= (Reset m).(next))%Z.
Proof. simpl. unfold noExpectedRequests. lia. Qed.

Lemma Expect_next meth path m :
  (-1 <= m.(next))%Z -> (-1 <= (snd (Expect meth path m)).(next))%Z.
Proof.
  intros H. unfold Expect.
  destruct (0 <? next m)%Z; [exact H|].
  destruct (url_JoinPath _ _); simpl; [|exact H].
  destruct (Nat.eqb _ 1); [lia | exact H].
Qed.

Lemma mock_Do_next rq m :
  (-1 <= m.(next))%Z -> (-1 <= (snd (mock_Do DetectContentType StatusText writeBody rq m)).(next))%Z.
Proof.
  intros H. unfold mock_Do.
  destruct (negb _ && _); simpl; [|exact H].
  destruct (next m <? 0)%Z; [exact H|].
  destruct (expectations m !! _); [|exact H].
  destruct (negb _); simpl; lia.
Qed.

Lemma update_expectation_next i f m : (update_expectation i f m).(next) = m.(next).
Proof. reflexivity. Qed.

(** Once a request has consumed an expectation, the cursor is past 0 and
    [Expect] panics with [ErrCannotChangeExpectations]. *)
Lemma Expect_panics_once_matched rq m meth path :
  (0 <= m.(next))%Z -> (m.(next) < Z.of_nat (length m.(expectations)))%Z ->
  exists msg, fst (Expect meth path (snd (mock_Do DetectContentType StatusText writeBody rq m))) =
              Panic (EWrap msg [ESentinel ErrCannotChangeExpectations]).
Proof.
  intros H0 Hl. unfold mock_Do.
  assert (Hn : (next m =? noExpectedRequests)%Z = false)
    by (apply Z.eqb_neq; unfold noExpectedRequests; lia).
  rewrite Hn. apply Z.ltb_lt in Hl. rewrite Hl. simpl.
  assert (Hneg : (next m <? 0)%Z = false) by (apply Z.ltb_ge; lia). rewrite Hneg.
  destruct (expectations m !! Z.to_nat (next m)) as [e|] eqn:He.
  - assert (Hp : (0 <? next m + 1)%Z = true) by (apply Z.ltb_lt; lia).
    destruct (negb (isExpected e)); simpl; unfold Expect; simpl; rewrite Hp;
      eexists; reflexivity.
  - exfalso. apply lookup_ge_None in He. apply Z.ltb_lt in Hl. lia.
Qed.

End MockFacts.

(** C7. A request that reaches the mock when no expectation is configured,
    when the cursor is past the last expectation, or when the expectation
    at the cursor is marked not-expected, is appended once to the
    unexpected list, and the mock returns no response and
    [ErrUnexpectedRequest]. *)
Theorem mock_Do_records_unexpected DetectContentType StatusText writeBody
  (m : mockClient) (rq : Request) :
  (-1 <= m.(next))%Z ->
  m.(expectations) = [] \/ (Z.of_nat (length m.(expectations)) <= m.(next))%Z \/
  (exists e, m.(expectations) !! Z.to_nat m.(next) = Some e /\ e.(isExpected) = false) ->
  let '(o, m') := mock_Do DetectContentType StatusText writeBody rq m in
  o = Ret (None, Some (ESentinel ErrUnexpectedRequest)) /\
  m'.(unexpected) = m.(unexpected) ++ [rq].
Proof.
  intros Hinv Hcase. unfold mock_Do.
  destruct (next m =? noExpectedRequests)%Z eqn:Hn; simpl; [split; reflexivity|].
  destruct (next m <? Z.of_nat (length (expectations m)))%Z eqn:Hl; simpl; [|split; reflexivity].
  apply Z.eqb_neq in Hn. unfold noExpectedRequests in Hn. apply Z.ltb_lt in Hl.
  assert (Hneg : (next m <? 0)%Z = false) by (apply Z.ltb_ge; lia). rewrite Hneg.
  destruct Hcase as [He|[Hge|[e [He Hx]]]].
  - rewrite He in Hl. simpl in Hl. lia.
  - lia.
  - rewrite He, Hx. simpl. split; reflexivity.
Qed.

Lemma mock_Do_records_unexpected_witness :
  (-1 <= (NewMockClient "mock").(next))%Z /\
  ((NewMockClient "mock").(expectations) = [] \/
   (Z.of_nat (length (NewMockClient "mock").(expectations)) <= (NewMockClient "mock").(next))%Z \/
   (exists e, (NewMockClient "mock").(expectations) !! Z.to_nat (NewMockClient "mock").(next) = Some e
              /\ e.(isExpected) = false)) /\
  let '(o, m') := mock_Do (fun _ => "text/plain"%string) (fun _ => "OK"%string) (fun _ => None)
                    (sample_request ∅) (NewMockClient "mock") in
  o = Ret (None, Some (ESentinel ErrUnexpectedRequest)) /\
  m'.(unexpected) = (NewMockClient "mock").(unexpected) ++ [sample_request ∅].
Proof.
  split; [simpl; unfold noExpectedRequests; lia|].
  split; [left; reflexivity|].
  apply (mock_Do_records_unexpected (fun _ => "text/plain"%string) (fun _ => "OK"%string)
           (fun _ => None) (NewMockClient "mock") (sample_request ∅));
    [simpl; unfold noExpectedRequests; lia | left; reflexivity].
Defined.

Lemma url_JoinPath_Some base path : exists u, url_JoinPath base path = Some u.
Proof.
  unfold url_JoinPath.
  destruct path as [|c p]; [eexists; reflexivity|].
  destruct (Ascii.eqb c "/"%char) eqn:Hc.
  - apply Ascii.eqb_eq in Hc. subst c. eexists; reflexivity.
  - destruct c as [b0 b1 b2 b3 b4 b5 b6 b7];
      destruct b0, b1, b2, b3, b4, b5, b6, b7; try discriminate; eexists; reflexivity.
Qed.

(** C3. Dispatching a request to a new mock client, before any
    expectation is configured, records it as unexpected but leaves the
    cursor at [noExpectedRequests]; a later [Expect] (and so [ExpectGet]
    and the other shorthands) then returns normally, adding an expectation
    at index 0, instead of panicking with [ErrCannotChangeExpectations]. *)
Theorem Expect_after_unexpected_request_returns DetectContentType StatusText writeBody
  (name meth path : string) (rq : Request) :
  let '(o, m1) := mock_Do DetectContentType StatusText writeBody rq (NewMockClient name) in
  o = Ret (None, Some (ESentinel ErrUnexpectedRequest)) /\
  m1.(unexpected) = [rq] /\
  fst (Expect meth path m1) = Ret 0%nat.
Proof.
  simpl. split; [reflexivity|]. split; [reflexivity|].
  unfold Expect. simpl.
  destruct (url_JoinPath_Some "mock://hostname" path) as [u Hu]. rewrite Hu.
  reflexivity.
Qed.

(** ** Verification of a mock *)

Lemma omapM_Ret_inv {A B} (f : A -> outcome B) l ys :
  omapM f l = Ret ys -> Forall2 (fun x y => f x = Ret y) l ys.
Proof.
  revert ys. induction l as [|x l IH]; intros ys H; simpl in H.
  - injection H as <-. constructor.
  - destruct (f x) as [y|e] eqn:Ef; simpl in H; [|discriminate].
    destruct (omapM f l) as [ys'|e] eqn:El; simpl in H; [|discriminate].
    injection H as <-. constructor; [exact Ef | apply IH; reflexivity].
Qed.

Lemma expectation_report_nil e r : expectation_report e r = [] <-> r = [].
Proof. destruct r; simpl; split; congruence. Qed.

Lemma concat_nil_Forall {A} (ys : list (list A)) : List.concat ys = [] <-> Forall (fun y => y = []) ys.
Proof.
  induction ys as [|y ys IH]; simpl; [split; constructor|].
  split.
  - intros H. apply app_eq_nil in H as [-> H]. constructor; [reflexivity | apply IH, H].
  - intros H. inversion H; subst. simpl. apply IH. assumption.
Qed.

(** Without a panic on the way, [ExpectationsWereMet] reports nothing
    exactly when every expectation's check is empty and no request was
    unexpected. *)
Lemma ExpectationsWereMet_None m :
  ExpectationsWereMet m = Ret None <->
  Forall (fun e => checkExpectations e = Ret []) m.(expectations) /\ m.(unexpected) = [].
Proof.
  unfold ExpectationsWereMet.
  set (g := fun rq => obind (checkExpectations rq) (fun rpt => Ret (expectation_report rq rpt))).
  split.
  - destruct (omapM g (expectations m)) as [ys|e] eqn:E; simpl; [|discriminate].
    destruct (app (List.concat ys) _) eqn:Ea; [|discriminate]. intros _.
    apply app_eq_nil in Ea as [Hc Hi].
    split; [|destruct (unexpected m); [reflexivity | discriminate]].
    apply concat_nil_Forall in Hc. apply omapM_Ret_inv in E.
    clear Hi. revert Hc. induction E as [|x y l ys Hxy E IH]; intros Hc; [constructor|].
    inversion Hc; subst. constructor; [|apply IH; assumption].
    unfold g in Hxy. destruct (checkExpectations x) as [r|e]; simpl in Hxy; [|discriminate].
    injection Hxy as Hxy. apply expectation_report_nil in Hxy. subst. reflexivity.
  - intros [Hf Hu].
    assert (Hm : omapM g (expectations m) = Ret (map (fun _ => []) (expectations m))).
    { induction Hf as [|x l Hx Hf IH]; [reflexivity|].
      simpl. unfold g at 1. rewrite Hx. simpl. rewrite IH. reflexivity. }
    rewrite Hm. simpl. rewrite Hu. simpl.
    assert (Hc : List.concat (map (fun _ : MockRequest => @nil Err) (expectations m)) = []).
    { clear. induction (expectations m) as [|e l IH]; simpl; [reflexivity | exact IH]. }
    rewrite Hc. reflexivity.
Qed.

(** C8. [ExpectationsWereMet] does not always return: for an expectation
    [ExpectGet "/x"] with [WithBody "f"], met by a GET request built
    without a body (its [Body] is nil, as [http.NewRequest] leaves it),
    the mock answers the request, and the verification then panics on
    the nil body instead of returning an error that reports the body
    mismatch. *)
Theorem ExpectationsWereMet_panics_on_nil_body DetectContentType StatusText writeBody :
  match ExpectGet "/x" (NewMockClient "mock") with
  | (Ret i, m1) =>
      let m2 := WithBody i [x66] m1 in
      let '(o, m3) := mock_Do DetectContentType StatusText writeBody
                        (mkRequest "GET" "mock://hostname/x" ∅ NilBody) m2 in
      (exists resp, o = Ret (Some resp, None)) /\
      ExpectationsWereMet m3 = Panic (runtime_panic "invalid memory address or nil pointer dereference")
  | (Panic _, _) => False
  end.
Proof.
  simpl. split; [eexists; reflexivity | reflexivity].
Qed.

(* ------------------------------------------------------------------ *)
(** ** Further properties of the code *)

Lemma all_ascii (P : ascii -> bool) :
  forallb (fun n => P (ascii_of_nat n)) (seq 0 256) = true -> forall c, P c = true.
Proof.
  intros H c. rewrite <- (ascii_nat_embedding c).
  rewrite forallb_forall in H. apply H. apply in_seq.
  pose proof (nat_ascii_bounded c). lia.
Qed.

Lemma canon_byte_props u c :
  validHeaderFieldByte (canon_byte u c) = validHeaderFieldByte c /\
  canon_byte u (canon_byte u c) = canon_byte u c /\
  Ascii.eqb (canon_byte u c) "-" = Ascii.eqb c "-" /\
  Ascii.eqb (canon_byte u c) " " = Ascii.eqb c " ".
Proof.
  assert (H : forall c, (Bool.eqb (validHeaderFieldByte (canon_byte u c)) (validHeaderFieldByte c) &&
     Ascii.eqb (canon_byte u (canon_byte u c)) (canon_byte u c) &&
     Bool.eqb (Ascii.eqb (canon_byte u c) "-") (Ascii.eqb c "-") &&
     Bool.eqb (Ascii.eqb (canon_byte u c) " ") (Ascii.eqb c " ")) = true)
    by (apply all_ascii; destruct u; vm_compute; reflexivity).
  specialize (H c).
  repeat rewrite Bool.andb_true_iff in H. destruct H as [[[H1 H2] H3] H4].
  apply Bool.eqb_prop in H1, H3, H4. apply Ascii.eqb_eq in H2. auto.
Qed.

Lemma canon_bytes_idem u s : canon_bytes u (canon_bytes u s) = canon_bytes u s.
Proof.
  revert u. induction s as [|c r IH]; intros u; simpl; [reflexivity|].
  destruct (canon_byte_props u c) as (_ & H2 & H3 & _).
  rewrite H2, H3, IH. reflexivity.
Qed.


Lemma canon_bytes_valid u s :
  forallb validHeaderFieldByte (list_ascii_of_string (canon_bytes u s)) =
  forallb validHeaderFieldByte (list_ascii_of_string s).
Proof.
  revert u. induction s as [|c r IH]; intros u; simpl; [reflexivity|].
  destruct (canon_byte_props u c) as (H1 & _ & _ & _). rewrite H1, IH. reflexivity.
Qed.

Lemma string_app_nil (p : string) : (p ++ "")%string = p.
Proof. induction p as [|c p IH]; [reflexivity | exact (f_equal (String c) IH)]. Qed.

Lemma string_app_snoc (p r : string) c : ((p ++ String c "") ++ r)%string = (p ++ String c r)%string.
Proof. induction p as [|d p IH]; [reflexivity | exact (f_equal (String d) IH)]. Qed.

Lemma list_ascii_app (p s : string) :
  list_ascii_of_string (p ++ s) = list_ascii_of_string p ++ list_ascii_of_string s.
Proof. induction p as [|c p IH]; [reflexivity | exact (f_equal (cons c) IH)]. Qed.

Lemma space_not_valid : validHeaderFieldByte " " = false.
Proof. reflexivity. Qed.

Lemma valid_no_space l :
  forallb validHeaderFieldByte l = true ->
  forallb (fun c => validHeaderFieldByte c || Ascii.eqb c " ") l = true /\
  existsb (fun c => Ascii.eqb c " ") l = false.
Proof.
  induction l as [|c l IH]; simpl; [auto|].
  intros H. apply andb_prop in H as [Hc Hl]. destruct (IH Hl) as [-> ->].
  rewrite Hc. destruct (Ascii.eqb c " ") eqn:E; [|auto].
  apply Ascii.eqb_eq in E. subst. discriminate.
Qed.

Lemma invalid_space l :
  forallb validHeaderFieldByte l = false ->
  forallb (fun c => validHeaderFieldByte c || Ascii.eqb c " ") l = true ->
  existsb (fun c => Ascii.eqb c " ") l = true.
Proof.
  induction l as [|c l IH]; simpl; [discriminate|].
  intros H1 H2. apply andb_prop in H2 as [Hc Hl].
  destruct (validHeaderFieldByte c); simpl in *.
  - rewrite IH; auto. apply Bool.orb_true_r.
  - rewrite Hc. reflexivity.
Qed.

Lemma canonicalMIMEHeaderKey_fst a :
  fst (canonicalMIMEHeaderKey a) =
  if forallb validHeaderFieldByte (list_ascii_of_string a) then canon_bytes true a else a.
Proof.
  unfold canonicalMIMEHeaderKey.
  destruct (forallb validHeaderFieldByte (list_ascii_of_string a)) eqn:Hv.
  - destruct (valid_no_space _ Hv) as [-> ->]. reflexivity.
  - destruct (forallb (fun c => validHeaderFieldByte c || Ascii.eqb c " ") (list_ascii_of_string a)) eqn:Hs; [|reflexivity].
    rewrite (invalid_space _ Hv Hs). reflexivity.
Qed.

Lemma canonical_quick_spec s : forall upper p,
  (forall r, canon_bytes true (p ++ r) = (p ++ canon_bytes upper r)%string) ->
  canonical_quick upper (p ++ s) s =
  if forallb validHeaderFieldByte (list_ascii_of_string (p ++ s))
  then canon_bytes true (p ++ s) else (p ++ s)%string.
Proof.
  induction s as [|c r IH]; intros upper p Hinv.
  - simpl. rewrite string_app_nil.
    destruct (forallb _ _); [|reflexivity].
    specialize (Hinv ""). rewrite string_app_nil in Hinv. simpl in Hinv.
    rewrite string_app_nil in Hinv. symmetry. exact Hinv.
  - simpl canonical_quick.
    destruct (validHeaderFieldByte c) eqn:Hc; simpl negb; cbv iota.
    + destruct ((upper && is_lower c) || (negb upper && is_upper c)) eqn:Hch.
      * apply canonicalMIMEHeaderKey_fst.
      * assert (Hcb : canon_byte upper c = c).
        { unfold canon_byte. destruct upper, (is_lower c), (is_upper c); simpl in *;
            try discriminate; reflexivity. }
        rewrite <- string_app_snoc. apply IH.
        intros r'. rewrite string_app_snoc, Hinv. simpl. rewrite Hcb.
        rewrite <- string_app_snoc. reflexivity.
    + rewrite list_ascii_app. simpl. rewrite forallb_app. simpl. rewrite Hc.
      rewrite Bool.andb_false_r. reflexivity.
Qed.

Lemma CanonicalMIMEHeaderKey_spec s :
  CanonicalMIMEHeaderKey s =
  if forallb validHeaderFieldByte (list_ascii_of_string s) then canon_bytes true s else s.
Proof.
  unfold CanonicalMIMEHeaderKey.
  apply (canonical_quick_spec s true ""). intros r. reflexivity.
Qed.

Lemma CanonicalMIMEHeaderKey_idem s :
  CanonicalMIMEHeaderKey (CanonicalMIMEHeaderKey s) = CanonicalMIMEHeaderKey s.
Proof.
  rewrite !CanonicalMIMEHeaderKey_spec.
  destruct (forallb validHeaderFieldByte (list_ascii_of_string s)) eqn:Hv.
  - rewrite canon_bytes_valid, Hv. apply canon_bytes_idem.
  - rewrite Hv. reflexivity.
Qed.

Lemma digit_char (d : N) : (d < 10)%N ->
  digit_val (ascii_of_N (48 + d)) = Some (Z.of_N d).
Proof.
  intros H.
  assert (d = 0 \/ d = 1 \/ d = 2 \/ d = 3 \/ d = 4 \/ d = 5 \/ d = 6 \/ d = 7 \/ d = 8 \/ d = 9)%N
    as Hd by lia.
  repeat destruct Hd as [-> | Hd]; try (subst; reflexivity).
Qed.

Lemma parse_digits_digits_N f : forall n acc a,
  (n < 10 ^ N.of_nat f)%N ->
  exists k, parse_digits (digits_N f n acc) a = parse_digits acc (a * 10 ^ k + Z.of_N n)%Z
            /\ (0 <= k)%Z.
Proof.
  induction f as [|f IH]; intros n acc a Hn.
  - simpl in Hn. assert (n = 0%N) by lia. subst. exists 0%Z. simpl.
    split; [f_equal; lia | lia].
  - simpl digits_N.
    pose proof (N.div_mod n 10 ltac:(lia)) as Hdm.
    pose proof (N.mod_lt n 10 ltac:(lia)) as Hlt.
    destruct (N.div n 10 =? 0)%N eqn:Hq.
    + apply N.eqb_eq in Hq. exists 1%Z. split; [|lia].
      simpl. rewrite digit_char by exact Hlt. f_equal. lia.
    + assert (Hq' : (n / 10 < 10 ^ N.of_nat f)%N).
      { rewrite Nat2N.inj_succ, N.pow_succ_r' in Hn. apply N.Div0.div_lt_upper_bound. lia. }
      destruct (IH (n / 10)%N (String (ascii_of_N (48 + n mod 10)) acc) a Hq') as [k [Hk Hk0]].
      exists (k + 1)%Z. split; [|lia].
      rewrite Hk. simpl. rewrite digit_char by exact Hlt. f_equal.
      assert (Hz : Z.of_N n = (10 * Z.of_N (n / 10) + Z.of_N (n mod 10))%Z) by lia.
      rewrite Hz, Z.pow_add_r by lia. ring.
Qed.

Lemma take_digits_digits_N f : forall n acc a,
  (n < 10 ^ N.of_nat f)%N ->
  exists k, take_digits (digits_N f n acc) a = take_digits acc (a * 10 ^ k + Z.of_N n)%Z
            /\ (0 <= k)%Z.
Proof.
  induction f as [|f IH]; intros n acc a Hn.
  - simpl in Hn. assert (n = 0%N) by lia. subst. exists 0%Z. simpl.
    split; [f_equal; lia | lia].
  - simpl digits_N.
    pose proof (N.div_mod n 10 ltac:(lia)) as Hdm.
    pose proof (N.mod_lt n 10 ltac:(lia)) as Hlt.
    destruct (N.div n 10 =? 0)%N eqn:Hq.
    + apply N.eqb_eq in Hq. exists 1%Z. split; [|lia].
      simpl. rewrite digit_char by exact Hlt. f_equal. lia.
    + assert (Hq' : (n / 10 < 10 ^ N.of_nat f)%N).
      { rewrite Nat2N.inj_succ, N.pow_succ_r' in Hn. apply N.Div0.div_lt_upper_bound. lia. }
      destruct (IH (n / 10)%N (String (ascii_of_N (48 + n mod 10)) acc) a Hq') as [k [Hk Hk0]].
      exists (k + 1)%Z. split; [|lia].
      rewrite Hk. simpl. rewrite digit_char by exact Hlt. f_equal.
      assert (Hz : Z.of_N n = (10 * Z.of_N (n / 10) + Z.of_N (n mod 10))%Z) by lia.
      rewrite Hz, Z.pow_add_r by lia. ring.
Qed.

Lemma digits_N_head f : forall n acc,
  (0 < f)%nat -> (n < 10 ^ N.of_nat f)%N ->
  exists d rest, digits_N f n acc = String (ascii_of_N (48 + d)) rest /\ (d < 10)%N /\
                 (n <> 0 -> d <> 0)%N.
Proof.
  induction f as [|f IH]; intros n acc Hf Hn; [lia|].
  simpl digits_N.
  pose proof (N.mod_lt n 10 ltac:(lia)) as Hlt.
  destruct (N.div n 10 =? 0)%N eqn:Hq.
  - apply N.eqb_eq in Hq. exists (n mod 10)%N, acc. split; [reflexivity|]. split; [exact Hlt|].
    pose proof (N.div_mod n 10 ltac:(lia)). lia.
  - apply N.eqb_neq in Hq.
    assert (Hq' : (n / 10 < 10 ^ N.of_nat f)%N).
    { rewrite Nat2N.inj_succ, N.pow_succ_r' in Hn. apply N.Div0.div_lt_upper_bound. lia. }
    destruct f as [|f].
    { exfalso. apply Hq. change (N.of_nat 0) with 0%N in Hq'. rewrite N.pow_0_r in Hq'.
      set (q := (n / 10)%N) in *. lia. }
    destruct (IH (n / 10)%N (String (ascii_of_N (48 + n mod 10)) acc) ltac:(lia) Hq')
      as [d [rest [H1 [H2 H3]]]].
    exists d, rest. split; [exact H1|]. split; [exact H2|]. intros _. apply H3. exact Hq.
Qed.

Lemma Pos_size_nat_gt p : (Z.pos p < 2 ^ Z.of_nat (Pos.size_nat p))%Z.
Proof.
  induction p as [p IH|p IH|]; simpl Pos.size_nat; [| |reflexivity];
    rewrite Nat2Z.inj_succ, Z.pow_succ_r by lia; lia.
Qed.

Lemma itoa_fuel (n : N) : (n < 10 ^ N.of_nat (S (N.size_nat n)))%N.
Proof.
  destruct n as [|p]; [simpl; lia|].
  pose proof (Pos_size_nat_gt p) as H. simpl N.size_nat.
  assert (H2 : (2 ^ Z.of_nat (Pos.size_nat p) <= 10 ^ Z.of_nat (S (Pos.size_nat p)))%Z).
  { transitivity (10 ^ Z.of_nat (Pos.size_nat p))%Z.
    - apply Z.pow_le_mono_l. lia.
    - apply Z.pow_le_mono_r; lia. }
  assert (H3 : (Z.pos p < 10 ^ Z.of_nat (S (Pos.size_nat p)))%Z) by lia.
  apply N2Z.inj_lt. rewrite N2Z.inj_pow, nat_N_Z. exact H3.
Qed.

Lemma string_app_assoc (p q r : string) : ((p ++ q) ++ r)%string = (p ++ (q ++ r))%string.
Proof. induction p as [|d p IH]; [reflexivity | exact (f_equal (String d) IH)]. Qed.

Lemma digits_N_app f : forall n acc,
  digits_N f n acc = (digits_N f n "" ++ acc)%string.
Proof.
  induction f as [|f IH]; intros n acc; [reflexivity|].
  simpl digits_N. destruct (N.div n 10 =? 0)%N; [reflexivity|].
  rewrite IH, (IH _ (String _ "")), string_app_snoc. reflexivity.
Qed.

Lemma itoa_app_shape z t : exists d rest,
  (itoa z ++ t)%string = (if (z <? 0)%Z then String "-" (String (ascii_of_N (48 + d)) rest)
                          else String (ascii_of_N (48 + d)) rest) /\
  (d < 10)%N /\ (z <> 0%Z -> d <> 0%N) /\
  parse_digits (String (ascii_of_N (48 + d)) rest) 0 = parse_digits t (Z.abs z) /\
  take_digits (String (ascii_of_N (48 + d)) rest) 0 = take_digits t (Z.abs z).
Proof.
  unfold itoa. set (n := Z.abs_N z).
  assert (Hfirst : forall u, (u ++ t)%string = (digits_N (S (N.size_nat n)) n t) ->
     ((if (z <? 0)%Z then "-" ++ u else u) ++ t)%string =
     (if (z <? 0)%Z then String "-" (digits_N (S (N.size_nat n)) n t) else digits_N (S (N.size_nat n)) n t)).
  { intros u Hu. destruct (z <? 0)%Z; [exact (f_equal (String "-") Hu) | exact Hu]. }
  rewrite (Hfirst _ (eq_sym (digits_N_app _ n t))).
  destruct (digits_N_head (S (N.size_nat n)) n t ltac:(lia) (itoa_fuel n)) as [d [rest [H1 [H2 H3]]]].
  destruct (parse_digits_digits_N (S (N.size_nat n)) n t 0 (itoa_fuel n)) as [k [Hk _]].
  destruct (take_digits_digits_N (S (N.size_nat n)) n t 0 (itoa_fuel n)) as [k' [Hk' _]].
  rewrite H1 in Hk, Hk' |- *. exists d, rest.
  split; [destruct (z <? 0)%Z; reflexivity|]. split; [exact H2|].
  split; [intros Hz; apply H3; unfold n; lia|].
  rewrite Hk, Hk'. unfold n. rewrite N2Z.inj_abs_N. split; f_equal; lia.
Qed.

Lemma Atoi_itoa z : (int64_min <= z <= int64_max)%Z -> Atoi (itoa z) = Some z.
Proof.
  intros Hr.
  destruct (itoa_app_shape z "") as [d [rest [Hs [Hd [_ [Hp _]]]]]].
  rewrite string_app_nil in Hs. rewrite Hs.
  change (parse_digits "" (Z.abs z)) with (Some (Z.abs z)) in Hp.
  assert (Hrange : ((int64_min <=? z) && (z <=? int64_max))%Z = true)
    by (apply andb_true_intro; split; apply Z.leb_le; lia).
  destruct (z <? 0)%Z eqn:Hz.
  - unfold Atoi. cbn - [parse_digits int64_min int64_max]. rewrite Hp. simpl.
    replace (- Z.abs z)%Z with z by lia. rewrite Hrange. reflexivity.
  - assert (d = 0 \/ d = 1 \/ d = 2 \/ d = 3 \/ d = 4 \/ d = 5 \/ d = 6 \/ d = 7 \/ d = 8 \/ d = 9)%N
      as Hd' by lia.
    replace (Z.abs z) with z in Hp by lia.
    unfold Atoi.
    repeat destruct Hd' as [-> | Hd']; try (subst d);
      match goal with |- context [ascii_of_N ?x] =>
        let c := eval vm_compute in (ascii_of_N x) in change (ascii_of_N x) with c in * end;
      cbn - [parse_digits int64_min int64_max]; rewrite Hp; rewrite Hrange; reflexivity.
Qed.

(** A string that does not start with a decimal digit. *)
Lemma take_digits_stop t v :
  match t with String c _ => digit_val c = None | EmptyString => True end ->
  take_digits t v = (v, t).
Proof. destruct t as [|c r]; [reflexivity|]. intros H. simpl. rewrite H. reflexivity. Qed.

Ltac compute_digit_char :=
  match goal with |- context [ascii_of_N ?x] =>
    let c := eval vm_compute in (ascii_of_N x) in change (ascii_of_N x) with c in * end.

Lemma json_integer_itoa z t :
  match t with String c _ => digit_val c = None | EmptyString => True end ->
  skip_ws (itoa z ++ t) = (itoa z ++ t)%string /\ json_integer (itoa z ++ t) = Some (z, t).
Proof.
  intros Ht.
  destruct (Z.eq_dec z 0%Z) as [->|Hnz].
  { split; reflexivity. }
  destruct (itoa_app_shape z t) as [d [rest [Hs [Hd [Hd0 [_ Hk]]]]]].
  rewrite Hs. rewrite (take_digits_stop t (Z.abs z) Ht) in Hk.
  specialize (Hd0 Hnz).
  assert (d = 1 \/ d = 2 \/ d = 3 \/ d = 4 \/ d = 5 \/ d = 6 \/ d = 7 \/ d = 8 \/ d = 9)%N
    as Hd' by lia.
  unfold json_integer.
  destruct (z <? 0)%Z eqn:Hneg.
  - apply Z.ltb_lt in Hneg. replace (Z.abs z) with (- z)%Z in Hk by lia.
    repeat destruct Hd' as [-> | Hd']; try (subst d); compute_digit_char;
      cbn - [take_digits]; rewrite Hk; rewrite Z.opp_involutive; split; reflexivity.
  - apply Z.ltb_ge in Hneg. replace (Z.abs z) with z in Hk by lia.
    repeat destruct Hd' as [-> | Hd']; try (subst d); compute_digit_char;
      cbn - [take_digits]; rewrite Hk; split; reflexivity.
Qed.

Lemma skip_ws_stop c s : is_ws c = false -> skip_ws (String c s) = String c s.
Proof. intros H. simpl. rewrite H. reflexivity. Qed.

Lemma json_elems_marshal l : forall z rest f,
  (length l < f)%nat ->
  json_elems f (String.concat "," (map itoa (z :: l)) ++ "]" ++ rest) = Some (z :: l, rest).
Proof.
  induction l as [|y ys IH]; intros z rest f Hf;
    (destruct f as [|f]; [simpl in Hf; lia|]).
  - change (String.concat "," (map itoa [z])) with (itoa z).
    change ("]" ++ rest)%string with (String "]" rest).
    destruct (json_integer_itoa z (String "]" rest) eq_refl) as [Hw Hi].
    cbn [json_elems]. rewrite Hw, Hi. reflexivity.
  - change (String.concat "," (map itoa (z :: y :: ys)))
      with (itoa z ++ "," ++ String.concat "," (map itoa (y :: ys)))%string.
    rewrite string_app_assoc.
    change (("," ++ String.concat "," (map itoa (y :: ys))) ++ "]" ++ rest)%string
      with (String "," (String.concat "," (map itoa (y :: ys)) ++ "]" ++ rest))%string.
    destruct (json_integer_itoa z (String "," (String.concat "," (map itoa (y :: ys)) ++ "]" ++ rest))
                eq_refl) as [Hw Hi].
    cbn [json_elems]. rewrite Hw, Hi. rewrite skip_ws_stop by reflexivity.
    rewrite IH by (simpl in Hf; lia). reflexivity.
Qed.

Lemma string_length_app (a b : string) :
  String.length (a ++ b) = (String.length a + String.length b)%nat.
Proof. induction a as [|c a IH]; [reflexivity | exact (f_equal S IH)]. Qed.

Lemma itoa_nonempty z : (1 <= String.length (itoa z))%nat.
Proof.
  destruct (itoa_app_shape z "") as [d [rest [Hs _]]].
  rewrite string_app_nil in Hs. rewrite Hs.
  destruct (z <? 0)%Z; simpl; lia.
Qed.

Lemma concat_itoa_length l : forall z,
  (length l < String.length (String.concat "," (map itoa (z :: l))))%nat.
Proof.
  induction l as [|y ys IH]; intros z.
  - pose proof (itoa_nonempty z). simpl. lia.
  - change (String.concat "," (map itoa (z :: y :: ys)))
      with (itoa z ++ String "," (String.concat "," (map itoa (y :: ys))))%string.
    rewrite string_length_app. specialize (IH y). simpl in *. lia.
Qed.

Lemma concat_itoa_head z l t :
  exists c rest, (String.concat "," (map itoa (z :: l)) ++ t)%string = String c rest /\
    is_ws c = false /\ c <> "]"%char.
Proof.
  assert (Hu : exists u, (String.concat "," (map itoa (z :: l)) ++ t)%string = (itoa z ++ u)%string).
  { destruct l as [|y ys].
    - exists t. reflexivity.
    - exists (String "," (String.concat "," (map itoa (y :: ys)) ++ t)).
      change (String.concat "," (map itoa (z :: y :: ys)))
        with (itoa z ++ String "," (String.concat "," (map itoa (y :: ys))))%string.
      apply string_app_assoc. }
  destruct Hu as [u ->].
  destruct (itoa_app_shape z u) as [d [rest [Hs [Hd _]]]].
  rewrite Hs. destruct (z <? 0)%Z.
  { eexists _, _. split; [reflexivity|]. split; [reflexivity | discriminate]. }
  exists (ascii_of_N (48 + d)), rest. split; [reflexivity|].
  assert (d = 0 \/ d = 1 \/ d = 2 \/ d = 3 \/ d = 4 \/ d = 5 \/ d = 6 \/ d = 7 \/ d = 8 \/ d = 9)%N
    as Hd' by lia.
  repeat destruct Hd' as [-> | Hd']; try (subst d); compute_digit_char;
    split; (reflexivity || discriminate).
Qed.

Lemma json_array_Marshal l :
  json_array (json_Marshal_ints (Some l)) = Some (Some l).
Proof.
  unfold json_array, json_Marshal_ints.
  destruct l as [|z l]; [reflexivity|].
  change ("[" ++ String.concat "," (map itoa (z :: l)) ++ "]")%string
    with (String "[" (String.concat "," (map itoa (z :: l)) ++ "]"))%string.
  rewrite skip_ws_stop by reflexivity.
  destruct (concat_itoa_head z l "]") as [c [rest [Hs [Hw Hc]]]].
  rewrite Hs, skip_ws_stop by exact Hw.
  assert (Hm : match String c rest with
               | String "]" r' => Some ([], r')
               | _ => json_elems (String.length (String c rest)) (String c rest)
               end = json_elems (String.length (String c rest)) (String c rest)).
  { destruct c as [[] [] [] [] [] [] [] []]; try reflexivity; exfalso; apply Hc; reflexivity. }
  rewrite Hm, <- Hs.
  change (String.concat "," (map itoa (z :: l)) ++ "]")%string
    with (String.concat "," (map itoa (z :: l)) ++ "]" ++ "")%string.
  rewrite json_elems_marshal; [reflexivity|].
  pose proof (concat_itoa_length l z). rewrite string_length_app. lia.
Qed.

Lemma json_Unmarshal_uints_Marshal l :
  Forall (fun x => 0 <= x < uint64_mod)%Z l ->
  json_Unmarshal_uints (json_Marshal_ints (Some l)) = Some (map Z.to_nat l).
Proof.
  intros Hl. unfold json_Unmarshal_uints. rewrite json_array_Marshal.
  assert (Hf : forallb (fun z0 => (0 <=? z0) && (z0 <? uint64_mod))%Z l = true).
  { apply forallb_forall. intros x Hx. pose proof (proj1 (List.Forall_forall _ _) Hl x Hx) as Hx'.
    cbv beta in Hx'. apply andb_true_intro; split; [apply Z.leb_le | apply Z.ltb_lt]; lia. }
  rewrite Hf. reflexivity.
Qed.

Lemma json_Unmarshal_uints_Marshal_neg l :
  Exists (fun x => x < 0)%Z l ->
  json_Unmarshal_uints (json_Marshal_ints (Some l)) = None.
Proof.
  intros Hl. unfold json_Unmarshal_uints. rewrite json_array_Marshal.
  assert (Hf : forallb (fun z0 => (0 <=? z0) && (z0 <? uint64_mod))%Z l = false).
  { apply Bool.not_true_iff_false. intros Hf. rewrite forallb_forall in Hf.
    apply List.Exists_exists in Hl. destruct Hl as [x [Hx Hneg]].
    specialize (Hf x Hx). apply andb_prop in Hf. destruct Hf as [Hf _]. apply Z.leb_le in Hf. lia. }
  rewrite Hf. reflexivity.
Qed.

Lemma json_Unmarshal_ints_Marshal l :
  Forall (fun x => int64_min <= x <= int64_max)%Z l ->
  json_Unmarshal_ints (json_Marshal_ints (Some l)) = Some (Some l).
Proof.
  intros Hl. unfold json_Unmarshal_ints. rewrite json_array_Marshal.
  assert (Hf : forallb (fun z => (int64_min <=? z) && (z <=? int64_max))%Z l = true).
  { apply forallb_forall. intros x Hx. pose proof (proj1 (List.Forall_forall _ _) Hl x Hx) as Hx'.
    cbv beta in Hx'. apply andb_true_intro; split; apply Z.leb_le; lia. }
  rewrite Hf. reflexivity.
Qed.

Lemma uint_of_int_of_uint n : (Z.of_nat n < uint64_mod)%Z ->
  uint_of_int (int_of_uint n) = n /\ (int64_min <= int_of_uint n <= int64_max)%Z.
Proof.
  intros Hn. unfold uint_of_int, int_of_uint, int64_min, int64_max in *.
  unfold uint64_mod in *.
  destruct (Z.of_nat n <? 2 ^ 63)%Z eqn:H.
  - apply Z.ltb_lt in H. rewrite Z.mod_small by lia. split; [apply Nat2Z.id | lia].
  - apply Z.ltb_ge in H.
    replace (Z.of_nat n - 2 ^ 64)%Z with (Z.of_nat n + (-1) * 2 ^ 64)%Z by ring.
    rewrite Z_mod_plus_full, Z.mod_small by lia. split; [apply Nat2Z.id | lia].
Qed.


Lemma canon_byte_lower u c : canon_byte u (canon_byte false c) = canon_byte u c.
Proof.
  assert (H : forall c, Ascii.eqb (canon_byte u (canon_byte false c)) (canon_byte u c) = true)
    by (apply all_ascii; destruct u; vm_compute; reflexivity).
  apply Ascii.eqb_eq, H.
Qed.

Lemma canon_bytes_lower u s : forall s',
  map (canon_byte false) (list_ascii_of_string s) = map (canon_byte false) (list_ascii_of_string s') ->
  canon_bytes u s = canon_bytes u s'.
Proof.
  revert u. induction s as [|c r IH]; intros u [|c' r'] Hm; try discriminate; [reflexivity|].
  simpl in Hm. injection Hm as Hc Hr.
  assert (Hcu : canon_byte u c = canon_byte u c')
    by (rewrite <- (canon_byte_lower u c), <- (canon_byte_lower u c'), Hc; reflexivity).
  simpl. rewrite Hcu, (IH _ r' Hr). reflexivity.
Qed.

Lemma valid_lower s : forall s',
  map (canon_byte false) (list_ascii_of_string s) = map (canon_byte false) (list_ascii_of_string s') ->
  forallb validHeaderFieldByte (list_ascii_of_string s) =
  forallb validHeaderFieldByte (list_ascii_of_string s').
Proof.
  induction s as [|c r IH]; intros [|c' r'] Hm; try discriminate; [reflexivity|].
  simpl in Hm. injection Hm as Hc Hr. simpl.
  destruct (canon_byte_props false c) as (Hv & _).
  destruct (canon_byte_props false c') as (Hv' & _).
  rewrite <- Hv, <- Hv', Hc, (IH r' Hr). reflexivity.
Qed.

Lemma CanonicalMIMEHeaderKey_lower k k' :
  forallb validHeaderFieldByte (list_ascii_of_string k) = true ->
  map (canon_byte false) (list_ascii_of_string k) = map (canon_byte false) (list_ascii_of_string k') ->
  CanonicalMIMEHeaderKey k = CanonicalMIMEHeaderKey k'.
Proof.
  intros Hv Hm. rewrite !CanonicalMIMEHeaderKey_spec.
  rewrite <- (valid_lower k k' Hm), Hv. apply canon_bytes_lower, Hm.
Qed.

(** X1. [request.Header] is case-insensitive for token keys: after setting
    key [k] (made only of header token bytes) to [v], [Header.Get] with any
    key [k'] that equals [k] up to letter case returns [v]. *)
Theorem Header_Get_case_insensitive k k' v h :
  forallb validHeaderFieldByte (list_ascii_of_string k) = true ->
  map (canon_byte false) (list_ascii_of_string k) = map (canon_byte false) (list_ascii_of_string k') ->
  Header_Get k' (snd (request.Header k v h)) = v.
Proof.
  intros Hv Hm. unfold Header_Get, request.Header, Header_Set. simpl.
  rewrite <- (CanonicalMIMEHeaderKey_lower k k' Hv Hm), lookup_insert_eq. reflexivity.
Qed.

Lemma Header_Get_case_insensitive_witness :
  forallb validHeaderFieldByte (list_ascii_of_string "content-type") = true /\
  map (canon_byte false) (list_ascii_of_string "content-type") =
    map (canon_byte false) (list_ascii_of_string "CONTENT-Type") /\
  Header_Get "CONTENT-Type" (snd (request.Header "content-type" "application/json" ∅)) =
    "application/json".
Proof.
  split; [reflexivity|]. split; [reflexivity|].
  apply Header_Get_case_insensitive; reflexivity.
Defined.

(** X2. A key containing a byte that is not a header token byte (a space,
    for instance) is not canonicalised: [request.Header] stores it verbatim,
    with the single value [v]. *)
Theorem Header_nontoken_key_verbatim k v h :
  forallb validHeaderFieldByte (list_ascii_of_string k) = false ->
  snd (request.Header k v h) = <[k := [v]]> h.
Proof.
  intros Hv. unfold request.Header, Header_Set. simpl.
  rewrite CanonicalMIMEHeaderKey_spec, Hv. reflexivity.
Qed.

Lemma Header_nontoken_key_verbatim_witness :
  forallb validHeaderFieldByte (list_ascii_of_string "x-my header") = false /\
  snd (request.Header "x-my header" "1" ∅) = <["x-my header" := ["1"]]> ∅.
Proof.
  split; [reflexivity|]. apply Header_nontoken_key_verbatim. reflexivity.
Defined.

(** X3. Canonicalising the key first makes no difference: [request.Header]
    on [CanonicalMIMEHeaderKey k] is the same option as on [k]. *)
Theorem Header_canonical_key_same k v :
  request.Header (CanonicalMIMEHeaderKey k) v = request.Header k v.
Proof.
  unfold request.Header, Header_Set. rewrite CanonicalMIMEHeaderKey_idem. reflexivity.
Qed.

(** X4. A header set with [request.NonCanonicalHeader] under a key that is
    not in canonical form is invisible to [Header.Get] with that key: [Get]
    sees the header as it was before. *)
Theorem NonCanonicalHeader_hidden_from_Get k v h :
  CanonicalMIMEHeaderKey k <> k ->
  Header_Get k (snd (request.NonCanonicalHeader k v h)) = Header_Get k h.
Proof.
  intros Hk. unfold Header_Get, request.NonCanonicalHeader. simpl.
  rewrite lookup_insert_ne by congruence. reflexivity.
Qed.

Lemma NonCanonicalHeader_hidden_from_Get_witness :
  CanonicalMIMEHeaderKey "sessionid" <> "sessionid" /\
  Header_Get "sessionid" (snd (request.NonCanonicalHeader "sessionid" "42" ∅)) = Header_Get "sessionid" ∅.
Proof.
  split; [vm_compute; discriminate|]. apply NonCanonicalHeader_hidden_from_Get.
  vm_compute; discriminate.
Defined.

(** X5. Applying [request.Accept] for a non-empty list of content types
    appends them, in order, to the values already present for [Accept] and
    never fails. *)
Theorem Accept_appends (cts : list string) (h : Header) :
  cts <> [] ->
  apply_options (map request.Accept cts) h =
    (Ret None, <["Accept" := match h !! "Accept" with Some vs => vs | None => [] end ++ cts]> h).
Proof.
  assert (Hk : CanonicalMIMEHeaderKey "Accept" = "Accept") by reflexivity.
  revert h. induction cts as [|c cs IH]; intros h Hne; [congruence|].
  simpl. unfold mbind, request.Accept, Header_Add. rewrite Hk.
  destruct cs as [|c2 cs].
  - simpl. unfold mret. destruct (h !! "Accept"); reflexivity.
  - rewrite IH by discriminate. rewrite lookup_insert_eq, insert_insert_eq.
    destruct (h !! "Accept"); [rewrite <- List.app_assoc | ]; reflexivity.
Qed.

Lemma Accept_appends_witness :
  ["text/html"; "application/json"] <> [] /\
  apply_options (map request.Accept ["text/html"; "application/json"]) ∅ =
    (Ret None, <["Accept" := match (∅ : Header) !! "Accept" with Some vs => vs | None => [] end
                               ++ ["text/html"; "application/json"]]> ∅).
Proof.
  split; [discriminate|]. apply (Accept_appends ["text/html"; "application/json"] ∅). discriminate.
Defined.

Lemma parse_none {A} hdr (fn : string -> A -> A * option Err) a h :
  h !! hdr = None -> parse hdr fn a h = (Ret (a, None), h).
Proof. intros H. unfold parse. rewrite H, delete_id by exact H. reflexivity. Qed.

Lemma parse_some {A} hdr (fn : string -> A -> A * option Err) a h s rest :
  h !! hdr = Some (s :: rest) ->
  parse hdr fn a h = (Ret ((fn s a).1, option_map (fun e =>
     EWrap ("invalid request headers: " ++ hdr)%string [ESentinel ErrInvalidRequestHeader; e])
     (fn s a).2), delete hdr h).
Proof. intros H. unfold parse. rewrite H. destruct (fn s a). reflexivity. Qed.

(** X6. The max-retries directive round-trips: for [n] representable as a
    [uint64] and a header holding no other directive, [parseRequestHeaders]
    on the header set by [request.MaxRetries n] reads back [n] with the
    default directives and removes the directive header. *)
Theorem MaxRetries_roundtrip (c : client) (h : Header) (n : nat) :
  (Z.of_nat n < uint64_mod)%Z ->
  h !! AcceptStatusHeader = None -> h !! ResponseBodyRequiredHeader = None ->
  h !! StreamResponseHeader = None ->
  parseRequestHeaders c (snd (request.MaxRetries n h)) =
    (Ret (mkDirectives n [200%nat] false false, None), delete MaxRetriesHeader h).
Proof.
  intros Hn Ha Hb Hs.
  destruct (uint_of_int_of_uint n Hn) as [Hrt Hr].
  unfold parseRequestHeaders, request.MaxRetries, mbind. simpl snd.
  rewrite (parse_some _ _ _ _ (itoa (int_of_uint n)) []) by apply lookup_insert_eq.
  rewrite delete_insert_eq. simpl fst. rewrite Atoi_itoa by exact Hr. simpl.
  rewrite parse_none by (rewrite lookup_delete_ne by discriminate; exact Ha).
  rewrite parse_none by (rewrite lookup_delete_ne by discriminate; exact Hb).
  rewrite parse_none by (rewrite lookup_delete_ne by discriminate; exact Hs).
  rewrite Hrt. reflexivity.
Qed.

Lemma MaxRetries_roundtrip_witness :
  (Z.of_nat 3 < uint64_mod)%Z /\
  (∅ : Header) !! AcceptStatusHeader = None /\ (∅ : Header) !! ResponseBodyRequiredHeader = None /\
  (∅ : Header) !! StreamResponseHeader = None /\
  parseRequestHeaders (mkClient "name" "" 5) (snd (request.MaxRetries 3 ∅)) =
    (Ret (mkDirectives 3 [200%nat] false false, None), delete MaxRetriesHeader ∅).
Proof.
  split; [unfold uint64_mod; lia|]. split; [reflexivity|]. split; [reflexivity|].
  split; [reflexivity|].
  apply MaxRetries_roundtrip; [unfold uint64_mod; lia | reflexivity | reflexivity | reflexivity].
Defined.


Lemma code_range_int64 l : Forall code_range l -> Forall (fun x => int64_min <= x <= int64_max)%Z l.
Proof.
  intros H. eapply Forall_impl; [exact H|]. unfold code_range, int64_min, int64_max. simpl. lia.
Qed.

Lemma code_range_uint64 l : Forall code_range l -> Forall (fun x => 0 <= x < uint64_mod)%Z l.
Proof.
  intros H. eapply Forall_impl; [exact H|]. unfold code_range, uint64_mod. simpl. lia.
Qed.

Lemma AcceptStatus_step (h : Header) acc l :
  h !! AcceptStatusHeader = Some [json_Marshal_ints (Some acc)] ->
  Forall (fun x => int64_min <= x <= int64_max)%Z acc ->
  AcceptStatus l h = (Ret None, <[AcceptStatusHeader := [json_Marshal_ints (Some (acc ++ l))]]> h).
Proof.
  intros Hh Hacc. unfold AcceptStatus. rewrite Hh, json_Unmarshal_ints_Marshal by exact Hacc.
  reflexivity.
Qed.

Lemma apply_AcceptStatus ls : forall (h : Header) acc,
  h !! AcceptStatusHeader = Some [json_Marshal_ints (Some acc)] ->
  Forall code_range acc -> Forall (Forall code_range) ls ->
  apply_options (map AcceptStatus ls) h =
    (Ret None, <[AcceptStatusHeader := [json_Marshal_ints (Some (acc ++ List.concat ls))]]> h).
Proof.
  induction ls as [|l ls IH]; intros h acc Hh Hacc Hls.
  - simpl. rewrite app_nil_r, insert_id by exact Hh. reflexivity.
  - inversion Hls as [|? ? Hl Hls']; subst.
    simpl. unfold mbind. rewrite (AcceptStatus_step h acc l Hh (code_range_int64 _ Hacc)).
    rewrite (IH _ (acc ++ l)); [| apply lookup_insert_eq | apply Forall_app; split; assumption | exact Hls'].
    rewrite insert_insert_eq, <- List.app_assoc. reflexivity.
Qed.

(** X7. The accept-status directive round-trips: options [AcceptStatus] with
    codes that are non-negative Go ints all succeed, and the parsed
    acceptable codes are [200] followed by all the given codes, in order. *)
Theorem AcceptStatus_roundtrip (c : client) (h : Header) (ls : list (list Z)) :
  h !! AcceptStatusHeader = None ->
  Forall (Forall code_range) ls ->
  exists h1, apply_options (map AcceptStatus ls) h = (Ret None, h1) /\
    forall d e h', parseRequestHeaders c h1 = (Ret (d, e), h') ->
      d.(acceptableStatusCodes) = 200%nat :: map Z.to_nat (List.concat ls).
Proof.
  intros Hh Hls. destruct ls as [|l ls].
  - exists h. split; [reflexivity|]. intros d e h' Hp. revert Hp.
    unfold parseRequestHeaders, mbind, mret.
    step_parse; [|discriminate]. subst.
    rewrite parse_none by (rewrite lookup_delete_ne by discriminate; exact Hh).
    step_parse; [|discriminate]. step_parse; [|discriminate].
    intros [= <- _ _]. reflexivity.
  - inversion Hls as [|? ? Hl Hls']; subst.
    set (h0 := <[AcceptStatusHeader := [json_Marshal_ints (Some (200%Z :: l))]]> h).
    assert (Hstep : apply_options (map AcceptStatus (l :: ls)) h =
                    apply_options (map AcceptStatus ls) h0).
    { simpl. unfold mbind, AcceptStatus at 1. rewrite Hh. reflexivity. }
    rewrite Hstep, (apply_AcceptStatus ls h0 (200%Z :: l)).
    + eexists. split; [reflexivity|]. intros d e h' Hp.
      rewrite (parseRequestHeaders_codes c _ d e h' _ [] (map Z.to_nat ((200%Z :: l) ++ List.concat ls))
                 Hp (lookup_insert_eq _ _ _)).
      * reflexivity.
      * rewrite json_Unmarshal_uints_Marshal; [reflexivity|].
        apply code_range_uint64. constructor; [unfold code_range; lia|].
        apply Forall_app. split; [exact Hl|]. apply Forall_concat. exact Hls'.
    + apply lookup_insert_eq.
    + constructor; [unfold code_range; lia | exact Hl].
    + exact Hls'.
Qed.

Lemma AcceptStatus_roundtrip_witness :
  (∅ : Header) !! AcceptStatusHeader = None /\
  Forall (Forall code_range) [[404%Z]; [401%Z; 409%Z]] /\
  exists h1, apply_options (map AcceptStatus [[404%Z]; [401%Z; 409%Z]]) ∅ = (Ret None, h1) /\
    forall d e h', parseRequestHeaders (mkClient "name" "" 0) h1 = (Ret (d, e), h') ->
      d.(acceptableStatusCodes) = 200%nat :: map Z.to_nat (List.concat [[404%Z]; [401%Z; 409%Z]]).
Proof.
  split; [reflexivity|].
  assert (H : Forall (Forall code_range) [[404%Z]; [401%Z; 409%Z]])
    by (repeat constructor; unfold code_range; lia).
  split; [exact H|].
  apply AcceptStatus_roundtrip; [reflexivity | exact H].
Defined.

Lemma parse_ret {A} hdr (fn : string -> A -> A * option Err) a h :
  h !! hdr <> Some [] ->
  exists a' e, parse hdr fn a h = (Ret (a', e), delete hdr h).
Proof.
  intros H. destruct (h !! hdr) as [[|s rest]|] eqn:E; [congruence| |].
  - rewrite (parse_some _ _ _ _ s rest E). eauto.
  - rewrite (parse_none _ _ _ _ E), delete_id by exact E. eauto.
Qed.

Lemma parse_error_kind {A} hdr (fn : string -> A -> A * option Err) a h a' x h' :
  parse hdr fn a h = (Ret (a', Some x), h') -> err_is x (ESentinel ErrInvalidRequestHeader).
Proof.
  unfold parse. destruct (h !! hdr) as [[|s rest]|]; try discriminate.
  destruct (fn s a) as [a1 [e1|]]; intros [= _ <- _].
  eapply err_is_wrap; [left; reflexivity | apply err_is_refl].
Qed.

Lemma errors_Join_is es e t :
  errors_Join es = Some e -> (forall x, In (Some x) es -> err_is x t) -> err_is e t.
Proof.
  unfold errors_Join. destruct (omap id es) as [|y ys] eqn:E; [discriminate|].
  intros [= <-] Hall. apply (err_is_join _ y); [left; reflexivity|].
  assert (Hy : y ∈ omap id es) by (rewrite E; left).
  apply list_elem_of_omap in Hy. destruct Hy as [[z|] [Hz Hid]]; [|discriminate].
  simpl in Hid. injection Hid as ->. apply Hall. apply list_elem_of_In. exact Hz.
Qed.

Lemma parseRequestHeaders_error_kind c h d e h' :
  parseRequestHeaders c h = (Ret (d, Some e), h') -> err_is e (ESentinel ErrInvalidRequestHeader).
Proof.
  unfold parseRequestHeaders, mbind, mret.
  step_parse; [|discriminate]. step_parse; [|discriminate].
  step_parse; [|discriminate]. step_parse; [|discriminate].
  intros [= _ He _]. apply (errors_Join_is _ _ _ He).
  intros x Hx. simpl in Hx.
  destruct Hx as [Hx|[Hx|[Hx|[Hx|[]]]]]; subst; eapply parse_error_kind; eassumption.
Qed.

(** [client.Do] when the directive headers fail to parse. *)
Lemma Do_parse_error {TS} (transport : Request -> TS -> outcome DoResult * TS)
  (c : client) (w : World TS) d e h' :
  parseRequestHeaders c w.(w_rq).(rq_Header) = (Ret (d, Some e), h') ->
  exists e', client_Do transport c w =
      (Ret (None, Some e'), mkWorld (set_rq_Header w.(w_rq) h') w.(w_ts) w.(w_log)) /\
    err_is e' (ESentinel ErrInvalidRequestHeader) /\ err_is e' e.
Proof.
  intros Hp. unfold client_Do, mbind, mget, on_header. rewrite Hp.
  eexists. split; [reflexivity|]. split.
  - eapply err_is_wrap; [left; reflexivity|]. eapply parseRequestHeaders_error_kind. exact Hp.
  - eapply err_is_wrap; [left; reflexivity | apply err_is_refl].
Qed.

(** X8. When the directive headers cannot be parsed, [client.Do] returns no
    response and an error that is an [ErrInvalidRequestHeader] wrapping the
    parse error, and the request is never submitted: the transport state and
    the submission log are unchanged. *)
Theorem Do_invalid_directive_not_submitted {TS} (transport : Request -> TS -> outcome DoResult * TS)
  (c : client) (w : World TS) d e h' :
  parseRequestHeaders c w.(w_rq).(rq_Header) = (Ret (d, Some e), h') ->
  exists e', client_Do transport c w =
      (Ret (None, Some e'), mkWorld (set_rq_Header w.(w_rq) h') w.(w_ts) w.(w_log)) /\
    err_is e' (ESentinel ErrInvalidRequestHeader) /\ err_is e' e.
Proof. apply Do_parse_error. Qed.

Lemma Do_invalid_directive_not_submitted_witness :
  let w := mkWorld (sample_request (<[MaxRetriesHeader := ["three"]]> ∅)) 0%nat [] in
  let e := EJoin [EWrap ("invalid request headers: " ++ MaxRetriesHeader)
                    [ESentinel ErrInvalidRequestHeader; EMsg "strconv.Atoi: invalid syntax"]] in
  parseRequestHeaders (mkClient "name" "" 1) w.(w_rq).(rq_Header) =
    (Ret (mkDirectives 1 [200%nat] false false, Some e), ∅) /\
  exists e', client_Do (responding_transport (sample_response NoBody)) (mkClient "name" "" 1) w =
      (Ret (None, Some e'), mkWorld (set_rq_Header w.(w_rq) ∅) w.(w_ts) w.(w_log)) /\
    err_is e' (ESentinel ErrInvalidRequestHeader) /\ err_is e' e.
Proof.
  intros w e. assert (Hp : parseRequestHeaders (mkClient "name" "" 1) w.(w_rq).(rq_Header) =
    (Ret (mkDirectives 1 [200%nat] false false, Some e), ∅)) by reflexivity.
  split; [exact Hp|]. exact (Do_invalid_directive_not_submitted _ _ w _ _ _ Hp).
Defined.

(** X9. [request.AcceptStatus] accepts a negative code (it succeeds), but
    [client.Do] on the resulting request then fails with
    [ErrInvalidRequestHeader] without submitting the request. *)
Theorem AcceptStatus_negative_rejected_by_Do {TS} (transport : Request -> TS -> outcome DoResult * TS)
  (c : client) (w : World TS) (h : Header) (l : list Z) :
  h !! AcceptStatusHeader = None ->
  (forall k, In k reserved_headers -> h !! k <> Some []) ->
  Forall (fun x => int64_min <= x <= int64_max)%Z l ->
  Exists (fun x => x < 0)%Z l ->
  w.(w_rq).(rq_Header) = snd (AcceptStatus l h) ->
  fst (AcceptStatus l h) = Ret None /\
  exists e w', client_Do transport c w = (Ret (None, Some e), w') /\
    w'.(w_ts) = w.(w_ts) /\ w'.(w_log) = w.(w_log) /\
    err_is e (ESentinel ErrInvalidRequestHeader).
Proof.
  intros Hh Hne Hl Hneg Hw.
  assert (Ha : AcceptStatus l h =
     (Ret None, <[AcceptStatusHeader := [json_Marshal_ints (Some (200%Z :: l))]]> h))
    by (unfold AcceptStatus; rewrite Hh; destruct l; reflexivity).
  rewrite Ha in Hw |- *. split; [reflexivity|]. cbn [snd] in Hw.
  set (h1 := <[AcceptStatusHeader := [json_Marshal_ints (Some (200%Z :: l))]]> h) in Hw.
  assert (Hp : exists d e h', parseRequestHeaders c h1 = (Ret (d, Some e), h')).
  { unfold parseRequestHeaders, mbind, mret.
    destruct (parse_ret MaxRetriesHeader (fun s mr =>
        match Atoi s with
        | Some i => (uint_of_int i, None)
        | None => (mr, Some (EMsg "strconv.Atoi: invalid syntax"))
        end) c.(c_maxRetries) h1) as [mr [e1 ->]].
    { unfold h1. rewrite lookup_insert_ne by discriminate. apply Hne. simpl; tauto. }
    rewrite (parse_some _ _ _ _ (json_Marshal_ints (Some (200%Z :: l))) []).
    2: { unfold h1. rewrite lookup_delete_ne by discriminate. apply lookup_insert_eq. }
    rewrite json_Unmarshal_uints_Marshal_neg by (right; exact Hneg). simpl.
    destruct (parse_ret ResponseBodyRequiredHeader (fun s _ => (String.eqb s "true", None)) false
                (delete AcceptStatusHeader (delete MaxRetriesHeader h1))) as [br [e3 ->]].
    { unfold h1. rewrite !lookup_delete_ne, lookup_insert_ne by discriminate.
      apply Hne. simpl; tauto. }
    destruct (parse_ret StreamResponseHeader (fun s _ => (String.eqb s "true", None)) false
                (delete ResponseBodyRequiredHeader (delete AcceptStatusHeader (delete MaxRetriesHeader h1))))
      as [st [e4 ->]].
    { unfold h1. rewrite !lookup_delete_ne, lookup_insert_ne by discriminate.
      apply Hne. simpl; tauto. }
    unfold errors_Join. destruct e1, e3, e4; simpl; eauto. }
  destruct Hp as [d [e [h' Hp]]]. rewrite <- Hw in Hp.
  destruct (Do_parse_error transport c w d e h' Hp) as [e' [HD [Hk _]]].
  exists e', (mkWorld (set_rq_Header w.(w_rq) h') w.(w_ts) w.(w_log)).
  split; [exact HD|]. split; [reflexivity|]. split; [reflexivity|]. exact Hk.
Qed.

Lemma AcceptStatus_negative_rejected_by_Do_witness :
  let h : Header := <["Accept" := ["application/json"]]> ∅ in
  let w := mkWorld (sample_request (snd (AcceptStatus [(-1)%Z] h))) 0%nat [] in
  h !! AcceptStatusHeader = None /\
  (forall k, In k reserved_headers -> h !! k <> Some []) /\
  Forall (fun x => int64_min <= x <= int64_max)%Z [(-1)%Z] /\
  Exists (fun x => x < 0)%Z [(-1)%Z] /\
  w.(w_rq).(rq_Header) = snd (AcceptStatus [(-1)%Z] h) /\
  fst (AcceptStatus [(-1)%Z] h) = Ret None /\
  exists e w', client_Do (responding_transport (sample_response NoBody)) (mkClient "name" "" 0) w =
      (Ret (None, Some e), w') /\
    w'.(w_ts) = w.(w_ts) /\ w'.(w_log) = w.(w_log) /\
    err_is e (ESentinel ErrInvalidRequestHeader).
Proof.
  intros h w.
  assert (H1 : h !! AcceptStatusHeader = None) by reflexivity.
  assert (H2 : forall k, In k reserved_headers -> h !! k <> Some []).
  { intros k Hk. unfold reserved_headers in Hk.
    destruct Hk as [<-|[<-|[<-|[<-|[]]]]]; vm_compute; discriminate. }
  assert (H3 : Forall (fun x => int64_min <= x <= int64_max)%Z [(-1)%Z])
    by (repeat constructor; unfold int64_min, int64_max; lia).
  assert (H4 : Exists (fun x => x < 0)%Z [(-1)%Z]) by (constructor; lia).
  split; [exact H1|]. split; [exact H2|]. split; [exact H3|]. split; [exact H4|].
  split; [reflexivity|].
  exact (AcceptStatus_negative_rejected_by_Do _ (mkClient "name" "" 0) w h [(-1)%Z] H1 H2 H3 H4 eq_refl).
Defined.

(** X10. With zero retries, a failed submission is not retried: [client.Do]
    submits exactly once and returns the transport's response with an error
    wrapping the transport error; the error is not [ErrMaxRetriesExceeded]
    unless the transport's error is. *)
Theorem Do_no_retry_when_zero {TS} (transport : Request -> TS -> outcome DoResult * TS)
  (c : client) (w : World TS) d h' r e ts' :
  parseRequestHeaders c w.(w_rq).(rq_Header) = (Ret (d, None), h') ->
  d.(maxRetries) = 0%nat ->
  transport (set_rq_Header w.(w_rq) h') w.(w_ts) = (Ret (r, Some e), ts') ->
  exists e', client_Do transport c w =
      (Ret (r, Some e'), mkWorld (set_rq_Header w.(w_rq) h') ts'
                           (w.(w_log) ++ [(set_rq_Header w.(w_rq) h', (r, Some e))])) /\
    err_is e' e /\
    (~ err_is e (ESentinel ErrMaxRetriesExceeded) -> ~ err_is e' (ESentinel ErrMaxRetriesExceeded)).
Proof.
  intros Hp H0 Ht. rewrite (client_Do_unfold transport c w d h' Hp).
  unfold client_do. rewrite H0. cbn [do_loop]. unfold mbind, submit. cbn [w_rq w_ts w_log].
  rewrite Ht. simpl. eexists. split; [reflexivity|]. split.
  - eapply err_is_wrap; [left; reflexivity | apply err_is_refl].
  - intros Hn Hw. inversion Hw as [|? ? w0 ? Hin Hw0|]; subst.
    destruct Hin as [<-|[]]. exact (Hn Hw0).
Qed.


Lemma Do_no_retry_when_zero_witness :
  let w := mkWorld (sample_request ∅) 0%nat [] in
  parseRequestHeaders (mkClient "name" "" 0) w.(w_rq).(rq_Header) =
    (Ret (mkDirectives 0 [200%nat] false false, None), ∅) /\
  (mkDirectives 0 [200%nat] false false).(maxRetries) = 0%nat /\
  failing_transport (EMsg "connection refused") (set_rq_Header w.(w_rq) ∅) w.(w_ts) =
    (Ret (None, Some (EMsg "connection refused")), 1%nat) /\
  exists e', client_Do (failing_transport (EMsg "connection refused")) (mkClient "name" "" 0) w =
      (Ret (None, Some e'), mkWorld (set_rq_Header w.(w_rq) ∅) 1%nat
                           (w.(w_log) ++ [(set_rq_Header w.(w_rq) ∅, (None, Some (EMsg "connection refused")))])) /\
    err_is e' (EMsg "connection refused") /\
    (~ err_is (EMsg "connection refused") (ESentinel ErrMaxRetriesExceeded) ->
     ~ err_is e' (ESentinel ErrMaxRetriesExceeded)).
Proof.
  intros w. split; [reflexivity|]. split; [reflexivity|]. split; [reflexivity|].
  apply (Do_no_retry_when_zero _ _ w (mkDirectives 0 [200%nat] false false)); reflexivity.
Defined.


Lemma do_loop_first_success retries accept resp rest rq fails : forall n log,
  (length fails <= n)%nat -> (fails = [] \/ retries <> 0%nat) ->
  Forall (fun x : DoResult => snd x <> None) fails ->
  existsb (status_is resp) accept = true ->
  do_loop scripted_transport retries accept n (mkWorld rq (fails ++ (Some resp, None) :: rest) log) =
    (Ret (Some resp, None), mkWorld rq rest (log ++ map (pair rq) fails ++ [(rq, (Some resp, None))])).
Proof.
  induction fails as [|[r [e|]] fs IH]; intros n log Hn Hr Hf Ha.
  - destruct n; simpl; unfold mbind, submit; simpl; rewrite Ha; reflexivity.
  - destruct Hr as [Hr|Hr]; [discriminate|].
    inversion Hf as [|? ? _ Hfs]; subst.
    destruct n as [|n]; [simpl in Hn; lia|].
    simpl do_loop. unfold mbind at 1, submit. simpl.
    destruct (Nat.eqb retries 0) eqn:E; [apply Nat.eqb_eq in E; contradiction|].
    rewrite IH; [| simpl in Hn; lia | right; exact Hr | exact Hfs | exact Ha].
    rewrite <- List.app_assoc. reflexivity.
  - inversion Hf as [|? ? Hx _]. simpl in Hx. congruence.
Qed.

(** X11. [client.do] stops at the first success: after at most [retries]
    failed submissions, an acceptable response is returned without error,
    after exactly one submission per failure plus one, leaving the rest of
    the script unused. *)
Theorem do_stops_at_first_success retries accept resp rest rq log (fails : list DoResult) :
  (length fails <= retries)%nat ->
  Forall (fun x : DoResult => snd x <> None) fails ->
  existsb (status_is resp) accept = true ->
  client_do scripted_transport retries accept (mkWorld rq (fails ++ (Some resp, None) :: rest) log) =
    (Ret (Some resp, None), mkWorld rq rest (log ++ map (pair rq) fails ++ [(rq, (Some resp, None))])).
Proof.
  intros Hn Hf Ha. unfold client_do. apply do_loop_first_success; try assumption.
  destruct fails; [left; reflexivity | right; simpl in Hn; lia].
Qed.

Lemma do_stops_at_first_success_witness :
  let resp := sample_response NoBody in
  let fails : list DoResult := [(None, Some (EMsg "timeout")); (None, Some (EMsg "reset"))] in
  (length fails <= 3)%nat /\
  Forall (fun x : DoResult => snd x <> None) fails /\
  existsb (status_is resp) [200%nat] = true /\
  client_do scripted_transport 3 [200%nat]
    (mkWorld (sample_request ∅) (fails ++ (Some resp, None) :: [(None, Some (EMsg "unused"))]) []) =
    (Ret (Some resp, None), mkWorld (sample_request ∅) [(None, Some (EMsg "unused"))]
       ([] ++ map (pair (sample_request ∅)) fails ++ [(sample_request ∅, (Some resp, None))])).
Proof.
  intros resp fails.
  assert (Hf : Forall (fun x : DoResult => snd x <> None) fails)
    by (repeat constructor; simpl; discriminate).
  split; [simpl; lia|]. split; [exact Hf|]. split; [reflexivity|].
  apply do_stops_at_first_success; [simpl; lia | exact Hf | reflexivity].
Defined.

Lemma Do_rejects_status {TS} (transport : Request -> TS -> outcome DoResult * TS)
  (c : client) (w : World TS) d h' resp ts' :
  parseRequestHeaders c w.(w_rq).(rq_Header) = (Ret (d, None), h') ->
  existsb (status_is resp) d.(acceptableStatusCodes) = false ->
  transport (set_rq_Header w.(w_rq) h') w.(w_ts) = (Ret (Some resp, None), ts') ->
  exists e, client_Do transport c w =
      (Ret (Some resp, Some e), mkWorld (set_rq_Header w.(w_rq) h') ts'
                                  (w.(w_log) ++ [(set_rq_Header w.(w_rq) h', (Some resp, None))])) /\
    err_is e (ESentinel ErrUnexpectedStatusCode).
Proof.
  intros Hp Ha Ht. rewrite (client_Do_unfold transport c w d h' Hp).
  unfold client_do. destruct (maxRetries d); cbn [do_loop]; unfold mbind, submit; cbn [w_rq w_ts w_log];
    rewrite Ht; cbv beta iota; rewrite Ha; simpl;
    (eexists; split; [reflexivity|]);
    (eapply err_is_wrap; [left; reflexivity|]);
    (eapply err_is_wrap; [left; reflexivity | apply err_is_refl]).
Qed.

(** X12. A response whose status is not acceptable is returned with an
    [ErrUnexpectedStatusCode] error after a single submission: a bad status
    is never retried. *)
Theorem Do_unacceptable_status_not_retried {TS} (transport : Request -> TS -> outcome DoResult * TS)
  (c : client) (w : World TS) d h' resp ts' :
  parseRequestHeaders c w.(w_rq).(rq_Header) = (Ret (d, None), h') ->
  existsb (status_is resp) d.(acceptableStatusCodes) = false ->
  transport (set_rq_Header w.(w_rq) h') w.(w_ts) = (Ret (Some resp, None), ts') ->
  exists e, client_Do transport c w =
      (Ret (Some resp, Some e), mkWorld (set_rq_Header w.(w_rq) h') ts'
                                  (w.(w_log) ++ [(set_rq_Header w.(w_rq) h', (Some resp, None))])) /\
    err_is e (ESentinel ErrUnexpectedStatusCode).
Proof. apply Do_rejects_status. Qed.

Lemma Do_unacceptable_status_not_retried_witness :
  let resp := mkResponse 404 "404 Not Found" ∅ (-1) NoBody in
  let w := mkWorld (sample_request ∅) 0%nat [] in
  parseRequestHeaders (mkClient "name" "" 3) w.(w_rq).(rq_Header) =
    (Ret (mkDirectives 3 [200%nat] false false, None), ∅) /\
  existsb (status_is resp) (mkDirectives 3 [200%nat] false false).(acceptableStatusCodes) = false /\
  responding_transport resp (set_rq_Header w.(w_rq) ∅) w.(w_ts) = (Ret (Some resp, None), 1%nat) /\
  exists e, client_Do (responding_transport resp) (mkClient "name" "" 3) w =
      (Ret (Some resp, Some e), mkWorld (set_rq_Header w.(w_rq) ∅) 1%nat
                                  (w.(w_log) ++ [(set_rq_Header w.(w_rq) ∅, (Some resp, None))])) /\
    err_is e (ESentinel ErrUnexpectedStatusCode).
Proof.
  intros resp w. split; [reflexivity|]. split; [reflexivity|]. split; [reflexivity|].
  apply (Do_unacceptable_status_not_retried _ _ w (mkDirectives 3 [200%nat] false false)); reflexivity.
Defined.

(** X13. An accept-status directive whose first value is [[]] or [null]
    parses to an empty list of acceptable codes, so every response is
    rejected with [ErrUnexpectedStatusCode]. *)
Theorem Do_empty_accept_list_rejects_all {TS} (transport : Request -> TS -> outcome DoResult * TS)
  (c : client) (w : World TS) d h' v vs resp ts' :
  w.(w_rq).(rq_Header) !! AcceptStatusHeader = Some (v :: vs) ->
  v = "[]" \/ v = "null" ->
  parseRequestHeaders c w.(w_rq).(rq_Header) = (Ret (d, None), h') ->
  transport (set_rq_Header w.(w_rq) h') w.(w_ts) = (Ret (Some resp, None), ts') ->
  exists e, client_Do transport c w =
      (Ret (Some resp, Some e), mkWorld (set_rq_Header w.(w_rq) h') ts'
                                  (w.(w_log) ++ [(set_rq_Header w.(w_rq) h', (Some resp, None))])) /\
    err_is e (ESentinel ErrUnexpectedStatusCode).
Proof.
  intros Hh Hv Hp Ht.
  assert (Hc : d.(acceptableStatusCodes) = []).
  { apply (parseRequestHeaders_codes c _ d None h' v vs [] Hp Hh).
    destruct Hv as [->| ->]; reflexivity. }
  apply (Do_rejects_status transport c w d h' resp ts' Hp); [rewrite Hc; reflexivity | exact Ht].
Qed.

Lemma Do_empty_accept_list_rejects_all_witness :
  let resp := sample_response NoBody in
  let w := mkWorld (sample_request (<[AcceptStatusHeader := ["null"]]> ∅)) 0%nat [] in
  w.(w_rq).(rq_Header) !! AcceptStatusHeader = Some ["null"] /\
  ("null" = "[]" \/ "null" = "null") /\
  parseRequestHeaders (mkClient "name" "" 0) w.(w_rq).(rq_Header) =
    (Ret (mkDirectives 0 [] false false, None), ∅) /\
  responding_transport resp (set_rq_Header w.(w_rq) ∅) w.(w_ts) = (Ret (Some resp, None), 1%nat) /\
  exists e, client_Do (responding_transport resp) (mkClient "name" "" 0) w =
      (Ret (Some resp, Some e), mkWorld (set_rq_Header w.(w_rq) ∅) 1%nat
                                  (w.(w_log) ++ [(set_rq_Header w.(w_rq) ∅, (Some resp, None))])) /\
    err_is e (ESentinel ErrUnexpectedStatusCode).
Proof.
  intros resp w. split; [reflexivity|]. split; [right; reflexivity|].
  split; [reflexivity|]. split; [reflexivity|].
  apply (Do_empty_accept_list_rejects_all _ _ w (mkDirectives 0 [] false false) ∅ "null" []);
    [reflexivity | right; reflexivity | reflexivity | reflexivity].
Defined.

(** X14. When the response body is required but read as empty, [client.Do]
    returns the response with [ContentLength] 0 and [http.NoBody], together
    with an [ErrNoResponseBody] error. *)
Theorem Do_body_required_empty_fails {TS} (transport : Request -> TS -> outcome DoResult * TS)
  (c : client) (w : World TS) d h' r w1 :
  parseRequestHeaders c w.(w_rq).(rq_Header) = (Ret (d, None), h') ->
  d.(streamResponse) = false ->
  d.(responseBodyRequired) = true ->
  client_do transport d.(maxRetries) d.(acceptableStatusCodes)
    (mkWorld (set_rq_Header w.(w_rq) h') w.(w_ts) w.(w_log)) = (Ret (Some r, None), w1) ->
  ioReadAll r.(r_Body) = ([], None) ->
  exists e, client_Do transport c w =
    (Ret (Some (mkResponse r.(r_StatusCode) r.(r_Status) r.(r_Header) 0 NoBody), Some e), w1) /\
    err_is e (ESentinel ErrNoResponseBody).
Proof.
  intros Hp Hs Hb Hd Hr.
  rewrite (client_Do_unfold transport c w d h' Hp). unfold mbind at 1. rewrite Hd.
  rewrite Hs. cbv beta iota. rewrite Hr. cbv beta iota. rewrite Hb.
  eexists. split; [reflexivity|].
  eapply err_is_wrap; [left; reflexivity | apply err_is_refl].
Qed.

Lemma Do_body_required_empty_fails_witness :
  let rq := sample_request (<[ResponseBodyRequiredHeader := ["true"]]> ∅) in
  let resp := sample_response NoBody in
  let w := mkWorld rq 0%nat [] in
  let d := mkDirectives 0 [200%nat] true false in
  let w1 := mkWorld (set_rq_Header rq ∅) 1%nat [(set_rq_Header rq ∅, (Some resp, None))] in
  parseRequestHeaders (mkClient "name" "" 0) w.(w_rq).(rq_Header) = (Ret (d, None), ∅) /\
  d.(streamResponse) = false /\ d.(responseBodyRequired) = true /\
  client_do (responding_transport resp) d.(maxRetries) d.(acceptableStatusCodes)
    (mkWorld (set_rq_Header w.(w_rq) ∅) w.(w_ts) w.(w_log)) = (Ret (Some resp, None), w1) /\
  ioReadAll resp.(r_Body) = ([], None) /\
  exists e, client_Do (responding_transport resp) (mkClient "name" "" 0) w =
    (Ret (Some (mkResponse resp.(r_StatusCode) resp.(r_Status) resp.(r_Header) 0 NoBody), Some e), w1) /\
    err_is e (ESentinel ErrNoResponseBody).
Proof.
  intros rq resp w d w1.
  do 5 (split; [reflexivity|]).
  apply (Do_body_required_empty_fails _ _ w d ∅ resp w1); reflexivity.
Defined.

(** X15. When reading the response body fails, [client.Do] returns the
    response with [ContentLength] 0 and [http.NoBody], together with an
    error wrapping the read error. *)
Theorem Do_body_read_error {TS} (transport : Request -> TS -> outcome DoResult * TS)
  (c : client) (w : World TS) d h' r w1 B e0 :
  parseRequestHeaders c w.(w_rq).(rq_Header) = (Ret (d, None), h') ->
  d.(streamResponse) = false ->
  client_do transport d.(maxRetries) d.(acceptableStatusCodes)
    (mkWorld (set_rq_Header w.(w_rq) h') w.(w_ts) w.(w_log)) = (Ret (Some r, None), w1) ->
  ioReadAll r.(r_Body) = (B, Some e0) ->
  exists e, client_Do transport c w =
    (Ret (Some (mkResponse r.(r_StatusCode) r.(r_Status) r.(r_Header) 0 NoBody), Some e), w1) /\
    err_is e e0.
Proof.
  intros Hp Hs Hd Hr.
  rewrite (client_Do_unfold transport c w d h' Hp). unfold mbind at 1. rewrite Hd.
  rewrite Hs. cbv beta iota. rewrite Hr. cbv beta iota.
  eexists. split; [reflexivity|].
  eapply err_is_wrap; [left; reflexivity|].
  eapply err_is_wrap; [left; reflexivity | apply err_is_refl].
Qed.

Lemma Do_body_read_error_witness :
  let rq := sample_request ∅ in
  let resp := sample_response (Stream [Byte.x6f] (Some (EMsg "unexpected EOF"))) in
  let w := mkWorld rq 0%nat [] in
  let d := mkDirectives 0 [200%nat] false false in
  let w1 := mkWorld (set_rq_Header rq ∅) 1%nat [(set_rq_Header rq ∅, (Some resp, None))] in
  parseRequestHeaders (mkClient "name" "" 0) w.(w_rq).(rq_Header) = (Ret (d, None), ∅) /\
  d.(streamResponse) = false /\
  client_do (responding_transport resp) d.(maxRetries) d.(acceptableStatusCodes)
    (mkWorld (set_rq_Header w.(w_rq) ∅) w.(w_ts) w.(w_log)) = (Ret (Some resp, None), w1) /\
  ioReadAll resp.(r_Body) = ([Byte.x6f], Some (EMsg "unexpected EOF")) /\
  exists e, client_Do (responding_transport resp) (mkClient "name" "" 0) w =
    (Ret (Some (mkResponse resp.(r_StatusCode) resp.(r_Status) resp.(r_Header) 0 NoBody), Some e), w1) /\
    err_is e (EMsg "unexpected EOF").
Proof.
  intros rq resp w d w1.
  do 4 (split; [reflexivity|]).
  apply (Do_body_read_error _ _ w d ∅ resp w1 [Byte.x6f]); reflexivity.
Defined.

(** X16. The option loop of [NewRequest] stops at the first failing option:
    the options after it are never applied, and its error and header are the
    result. *)
Theorem apply_options_stops_at_first_error (opts1 opts2 : list RequestOption) (o : RequestOption)
  (h h1 h2 : Header) (e : Err) :
  apply_options opts1 h = (Ret None, h1) ->
  o h1 = (Ret (Some e), h2) ->
  apply_options (opts1 ++ o :: opts2) h = (Ret (Some e), h2).
Proof.
  revert h. induction opts1 as [|o1 os IH]; intros h H1 Ho.
  - simpl in H1. injection H1 as <-. simpl. unfold mbind. rewrite Ho. reflexivity.
  - simpl in H1 |- *. unfold mbind in H1 |- *.
    destruct (o1 h) as [[[e1|]|p] h0]; try discriminate.
    apply IH; assumption.
Qed.

Lemma apply_options_stops_at_first_error_witness :
  apply_options [request.Header "Accept" "text/plain"] (<[AcceptStatusHeader := ["oops"]]> ∅) =
    (Ret None, <["Accept" := ["text/plain"]]> (<[AcceptStatusHeader := ["oops"]]> ∅)) /\
  AcceptStatus [] (<["Accept" := ["text/plain"]]> (<[AcceptStatusHeader := ["oops"]]> ∅)) =
    (Ret (Some (EWrap "request.AcceptStatus" [EWrap "invalid json" [ESentinel ErrInvalidJSON; EMsg "json"]])),
     <["Accept" := ["text/plain"]]> (<[AcceptStatusHeader := ["oops"]]> ∅)) /\
  apply_options ([request.Header "Accept" "text/plain"] ++ AcceptStatus [] :: [request.ResponseBodyRequired])
    (<[AcceptStatusHeader := ["oops"]]> ∅) =
    (Ret (Some (EWrap "request.AcceptStatus" [EWrap "invalid json" [ESentinel ErrInvalidJSON; EMsg "json"]])),
     <["Accept" := ["text/plain"]]> (<[AcceptStatusHeader := ["oops"]]> ∅)).
Proof.
  assert (H1 : apply_options [request.Header "Accept" "text/plain"] (<[AcceptStatusHeader := ["oops"]]> ∅) =
    (Ret None, <["Accept" := ["text/plain"]]> (<[AcceptStatusHeader := ["oops"]]> ∅))) by reflexivity.
  split; [exact H1|]. split; [reflexivity|].
  apply (apply_options_stops_at_first_error _ _ _ _ _ _ _ H1). reflexivity.
Defined.

Lemma fold_client_step_grows opts : forall c errs,
  exists c' more, fold_left client_step opts (c, errs) = (c', errs ++ more).
Proof.
  induction opts as [|o os IH]; intros c errs.
  - exists c, []. rewrite app_nil_r. reflexivity.
  - cbn [fold_left]. unfold client_step at 2. destruct (o c) as [c1 [e1|]].
    + destruct (IH c1 (errs ++ [e1])) as [c' [more ->]]. exists c', (e1 :: more).
      rewrite <- List.app_assoc. reflexivity.
    + exact (IH c1 errs).
Qed.

(** X17. [NewClient] collects the errors of all options: an option that
    always fails, anywhere in the list, makes [NewClient] return no client
    and an [ErrInitialisingClient] error that wraps the option's error. *)
Theorem NewClient_collects_all_errors name (pre post : list ClientOption) (o : ClientOption) eo :
  (forall c, snd (o c) = Some eo) ->
  exists e, NewClient name (pre ++ o :: post) = (None, Some e) /\
    err_is e (ESentinel ErrInitialisingClient) /\ err_is e eo.
Proof.
  intros Ho. unfold NewClient.
  change (fun (acc : client * list Err) (opt : ClientOption) =>
            let '(c, errs) := acc in let '(c', e) := opt c in
            (c', match e with Some e => (errs ++ [e])%list | None => errs end)) with client_step.
  rewrite fold_left_app. cbn [fold_left].
  destruct (fold_left client_step pre (mkClient name "" 0, [])) as [c1 errs1].
  unfold client_step at 2. specialize (Ho c1). destruct (o c1) as [c2 e2]. simpl in Ho. subst e2.
  destruct (fold_client_step_grows post c2 (errs1 ++ [eo])) as [c' [more ->]].
  destruct ((errs1 ++ [eo]) ++ more) as [|x xs] eqn:E.
  { destruct errs1; discriminate. }
  eexists. split; [reflexivity|]. split.
  - eapply err_is_wrap; [left; reflexivity | apply err_is_refl].
  - eapply err_is_wrap; [right; left; reflexivity|].
    eapply err_is_join; [|apply err_is_refl]. rewrite <- E.
    apply in_or_app. left. apply in_or_app. right. left. reflexivity.
Qed.

Lemma NewClient_collects_all_errors_witness :
  let bad (m : string) : ClientOption := fun c => (c, Some (EMsg m)) in
  (forall c, snd (bad "second" c) = Some (EMsg "second")) /\
  exists e, NewClient "name" ([bad "first"; MaxRetries 2] ++ bad "second" :: [MaxRetries 3]) = (None, Some e) /\
    err_is e (ESentinel ErrInitialisingClient) /\ err_is e (EMsg "second").
Proof.
  intros bad. assert (H : forall c, snd (bad "second" c) = Some (EMsg "second")) by reflexivity.
  split; [exact H|]. exact (NewClient_collects_all_errors "name" _ _ _ _ H).
Defined.


Lemma mock_run_cons DCT ST WB rq rqs m :
  mock_run DCT ST WB (rq :: rqs) m = mock_run DCT ST WB rqs (snd (mock_Do DCT ST WB rq m)).
Proof. reflexivity. Qed.

Lemma set_actual_isExpected e rq : (set_actual e rq).(isExpected) = e.(isExpected).
Proof. reflexivity. Qed.

Lemma mock_run_gen DCT ST WB rqs : forall m k,
  m.(next) = Z.of_nat k -> k + length rqs <= length m.(expectations) ->
  Forall (fun e => e.(isExpected) = true) m.(expectations) ->
  let m' := mock_run DCT ST WB rqs m in
  m'.(next) = Z.of_nat (k + length rqs) /\ m'.(unexpected) = m.(unexpected) /\
  m'.(mc_name) = m.(mc_name) /\
  forall i, m'.(expectations) !! i =
    (fun e => if Nat.leb k i then
                match rqs !! (i - k) with Some rq => set_actual e rq | None => e end
              else e) <$> m.(expectations) !! i.
Proof.
  induction rqs as [|rq rqs IH]; intros m k Hk Hl Hf; cbn zeta.
  - simpl. rewrite Nat.add_0_r. split; [exact Hk|]. split; [reflexivity|]. split; [reflexivity|].
    intros i. destruct (m.(expectations) !! i) as [e|]; simpl; [|reflexivity].
    destruct (Nat.leb k i); [|reflexivity].
    destruct (i - k); reflexivity.
  - simpl in Hl. rewrite mock_run_cons.
    destruct (lookup_lt_is_Some_2 m.(expectations) k) as [e He]; [lia|].
    assert (Hexp : e.(isExpected) = true).
    { rewrite List.Forall_forall in Hf. apply Hf. apply list_elem_of_In.
      eapply list_elem_of_lookup_2. exact He. }
    set (m1 := mkMockClient m.(mc_name) m.(hostname)
                 (<[k := set_actual e rq]> m.(expectations)) m.(unexpected) (Z.of_nat (S k))).
    assert (Hd : snd (mock_Do DCT ST WB rq m) = m1).
    { unfold mock_Do. rewrite Hk.
      assert (H1 : (Z.of_nat k =? noExpectedRequests)%Z = false)
        by (apply Z.eqb_neq; unfold noExpectedRequests; lia).
      assert (H2 : (Z.of_nat k <? Z.of_nat (length m.(expectations)))%Z = true)
        by (apply Z.ltb_lt; lia).
      assert (H3 : (Z.of_nat k <? 0)%Z = false) by (apply Z.ltb_ge; lia).
      rewrite H1, H2, H3. simpl. rewrite Nat2Z.id, He, Hexp. simpl.
      unfold m1. f_equal. lia. }
    rewrite Hd.
    destruct (IH m1 (S k)) as (Hn & Hu & Hname & Hx).
    + reflexivity.
    + unfold m1; simpl. rewrite length_insert. lia.
    + unfold m1; simpl. apply Forall_insert; [exact Hf | exact Hexp].
    + split; [rewrite Hn; f_equal; simpl; lia|].
      split; [exact Hu|]. split; [exact Hname|].
      intros i. rewrite Hx. unfold m1; cbn [expectations].
      destruct (decide (i = k)) as [->|Hik].
      * rewrite list_lookup_insert_eq by lia. rewrite He.
        assert (Hle : Nat.leb (S k) k = false) by (apply Nat.leb_gt; lia).
        rewrite Hle, Nat.leb_refl, Nat.sub_diag. reflexivity.
      * rewrite list_lookup_insert_ne by congruence.
        destruct (m.(expectations) !! i) as [e'|]; [|reflexivity].
        destruct (Nat.leb (S k) i) eqn:E1.
        -- apply Nat.leb_le in E1.
           assert (E2 : Nat.leb k i = true) by (apply Nat.leb_le; lia). rewrite E2.
           replace (i - k) with (S (i - S k)) by lia. reflexivity.
        -- apply Nat.leb_gt in E1.
           assert (E2 : Nat.leb k i = false) by (apply Nat.leb_gt; lia). rewrite E2.
           reflexivity.
Qed.



(** X18. The mock matches requests to expectations by position: starting at
    the first expectation, the [k]-th request is recorded as the actual
    request of the [k]-th expectation, the cursor advances by one per
    request, and no request is recorded as unexpected. *)
Theorem mock_matches_requests_in_order DCT ST WB rqs m :
  m.(next) = 0%Z -> length rqs <= length m.(expectations) ->
  Forall (fun e => e.(isExpected) = true) m.(expectations) ->
  let m' := mock_run DCT ST WB rqs m in
  m'.(next) = Z.of_nat (length rqs) /\ m'.(unexpected) = m.(unexpected) /\
  forall i, m'.(expectations) !! i =
    (fun e => match rqs !! i with Some rq => set_actual e rq | None => e end) <$> m.(expectations) !! i.
Proof.
  intros Hn Hl Hf. cbn zeta.
  destruct (mock_run_gen DCT ST WB rqs m 0 Hn Hl Hf) as (H1 & H2 & _ & H3).
  split; [exact H1|]. split; [exact H2|].
  intros i. rewrite H3. simpl. rewrite Nat.sub_0_r. reflexivity.
Qed.

Lemma mock_matches_requests_in_order_witness :
  let e0 := mkMockRequest 0 (Some "GET") None "mock://hostname/a" ∅ None true None in
  let e1 := mkMockRequest 1 (Some "PUT") None "mock://hostname/b" ∅ None true None in
  let m := mkMockClient "mock" "mock://hostname" [e0; e1] [] 0 in
  let rq := mkRequest "GET" "mock://hostname/a" ∅ NilBody in
  (m.(next) = 0%Z /\ length [rq] <= length m.(expectations) /\
   Forall (fun e => e.(isExpected) = true) m.(expectations)) /\
  let m' := mock_run (fun _ => "") (fun _ => "") (fun _ => None) [rq] m in
  m'.(next) = Z.of_nat (length [rq]) /\ m'.(unexpected) = m.(unexpected) /\
  forall i, m'.(expectations) !! i =
    (fun e => match [rq] !! i with Some rq => set_actual e rq | None => e end) <$> m.(expectations) !! i.
Proof.
  intros e0 e1 m rq. split.
  - split; [reflexivity|]. split; [simpl; lia|]. repeat constructor.
  - apply mock_matches_requests_in_order; [reflexivity | simpl; lia | repeat constructor].
Defined.



(** X20. [ExpectationsWereMet] never reports success when an expected
    request did not arrive, when a request marked [WillNotBeCalled] did
    arrive, or when an unexpected request was recorded. *)
Theorem ExpectationsWereMet_detects_unmet m :
  (Exists (fun e => e.(isExpected) = true /\ e.(actual) = None) m.(expectations) \/
   Exists (fun e => e.(isExpected) = false /\ e.(actual) <> None) m.(expectations) \/
   m.(unexpected) <> []) ->
  ExpectationsWereMet m <> Ret None.
Proof.
  intros H Hm. apply ExpectationsWereMet_None in Hm as [Hf Hu].
  destruct H as [H|[H|H]]; [| |contradiction].
  - apply List.Exists_exists in H as (e & Hin & Hx & Ha).
    rewrite List.Forall_forall in Hf. specialize (Hf e Hin).
    unfold checkExpectations in Hf. rewrite Hx, Ha in Hf. discriminate.
  - apply List.Exists_exists in H as (e & Hin & Hx & Ha).
    rewrite List.Forall_forall in Hf. specialize (Hf e Hin).
    unfold checkExpectations in Hf. rewrite Hx in Hf.
    destruct (actual e); [discriminate | contradiction].
Qed.

Lemma ExpectationsWereMet_detects_unmet_witness :
  let m := snd (ExpectGet "/a" (NewMockClient "mock")) in
  (Exists (fun e => e.(isExpected) = true /\ e.(actual) = None) m.(expectations) \/
   Exists (fun e => e.(isExpected) = false /\ e.(actual) <> None) m.(expectations) \/
   m.(unexpected) <> []) /\
  ExpectationsWereMet m <> Ret None.
Proof.
  intros m.
  assert (H : Exists (fun e => e.(isExpected) = true /\ e.(actual) = None) m.(expectations))
    by (apply Exists_cons_hd; split; reflexivity).
  split; [left; exact H|]. apply ExpectationsWereMet_detects_unmet. left. exact H.
Defined.

Lemma mock_Do_WillReturnError DCT ST WB rq m i err e :
  m.(next) = Z.of_nat i -> m.(expectations) !! i = Some e -> e.(isExpected) = true ->
  exists m', mock_Do DCT ST WB rq (WillReturnError i err m) =
    (Ret (Some (recorder_Result ST 200 (fmap (fun v => [v]) (∅ : gmap string string)) NoBody), Some err), m').
Proof.
  intros Hn He Hx. unfold mock_Do, WillReturnError, update_expectation. cbn [next expectations].
  rewrite Hn.
  assert (Hl : i < length m.(expectations)) by (apply lookup_lt_Some in He; exact He).
  assert (H1 : (Z.of_nat i =? noExpectedRequests)%Z = false)
    by (apply Z.eqb_neq; unfold noExpectedRequests; lia).
  assert (H2 : (Z.of_nat i <? Z.of_nat (length (alter
            (fun e0 => mkMockRequest (index e0) (method e0) (body e0) (url e0) (headers e0) (actual e0)
                         (isExpected e0) (Some (mkMockResponse ∅ None [] (Some err))))
            i m.(expectations))))%Z = true)
    by (rewrite length_alter; apply Z.ltb_lt; lia).
  assert (H3 : (Z.of_nat i <? 0)%Z = false) by (apply Z.ltb_ge; lia).
  rewrite H1, H2, H3. cbn [negb andb]. rewrite Nat2Z.id, list_lookup_alter_eq, He. cbn [fmap option_fmap option_map].
  cbn [isExpected]. rewrite Hx. cbn [negb].
  eexists. reflexivity.
Qed.

(** X21. [WillReturnError] makes [client.Do] fail with an error wrapping the
    configured error (with zero retries), and [client.Do] still returns the
    mock's 200 response, whose body is [http.NoBody], alongside the error. *)
Theorem WillReturnError_through_Do DCT ST WB (c : client) (w : World mockClient) d h' i err e :
  parseRequestHeaders c w.(w_rq).(rq_Header) = (Ret (d, None), h') ->
  d.(maxRetries) = 0%nat ->
  w.(w_ts).(next) = Z.of_nat i -> w.(w_ts).(expectations) !! i = Some e -> e.(isExpected) = true ->
  exists resp e' w',
    client_Do (mock_Do DCT ST WB) c (mkWorld w.(w_rq) (WillReturnError i err w.(w_ts)) w.(w_log)) =
      (Ret (Some resp, Some e'), w') /\
    resp.(r_StatusCode) = 200%Z /\ resp.(r_Body) = NoBody /\ err_is e' err.
Proof.
  intros Hp H0 Hn He Hx.
  rewrite (client_Do_unfold (mock_Do DCT ST WB) c
             (mkWorld w.(w_rq) (WillReturnError i err w.(w_ts)) w.(w_log)) d h' Hp).
  unfold client_do. rewrite H0. cbn [do_loop]. unfold mbind, submit. cbn [w_rq w_ts w_log].
  destruct (mock_Do_WillReturnError DCT ST WB (set_rq_Header w.(w_rq) h') w.(w_ts) i err e Hn He Hx)
    as [m' Hm].
  rewrite Hm. simpl.
  do 3 eexists. split; [reflexivity|].
  split; [reflexivity|]. split; [reflexivity|].
  eapply err_is_wrap; [left; reflexivity | apply err_is_refl].
Qed.

Lemma WillReturnError_through_Do_witness :
  let w := mkWorld (sample_request ∅) (snd (ExpectGet "/x" (NewMockClient "mock"))) [] in
  let e := mkMockRequest 0 (Some "GET") None "mock://hostname/x" ∅ None true None in
  (parseRequestHeaders (mkClient "name" "" 0) w.(w_rq).(rq_Header) =
     (Ret (mkDirectives 0 [200%nat] false false, None), ∅) /\
   (mkDirectives 0 [200%nat] false false).(maxRetries) = 0%nat /\
   w.(w_ts).(next) = Z.of_nat 0 /\ w.(w_ts).(expectations) !! 0%nat = Some e /\ e.(isExpected) = true) /\
  exists resp e' w',
    client_Do (mock_Do (fun _ => "") (fun _ => "OK") (fun _ => None)) (mkClient "name" "" 0)
      (mkWorld w.(w_rq) (WillReturnError 0 (EMsg "boom") w.(w_ts)) w.(w_log)) =
      (Ret (Some resp, Some e'), w') /\
    resp.(r_StatusCode) = 200%Z /\ resp.(r_Body) = NoBody /\ err_is e' (EMsg "boom").
Proof.
  intros w e.
  split; [repeat split; reflexivity|].
  apply (WillReturnError_through_Do _ _ _ _ w (mkDirectives 0 [200%nat] false false) ∅ 0 _ e);
    reflexivity.
Defined.

(** X22. When a body is expected and the request has one, the body check
    never panics, and reports nothing exactly when the two bodies are
    byte-for-byte equal. *)
Theorem checkBodyExpectation_bytes e a b act :
  e.(body) = Some b -> a.(rq_Body) = ReqBytes act ->
  exists rpt, checkBodyExpectation e a = Ret rpt /\ (rpt = [] <-> b = act).
Proof.
  intros Hb Ha. unfold checkBodyExpectation. rewrite Hb, Ha. unfold bytes_eqb.
  destruct (List.list_eq_dec Byte.byte_eq_dec b act) as [->|Hne].
  - eexists. split; [reflexivity|]. tauto.
  - destruct b as [|x b]; [|destruct act as [|y act]];
      (eexists; split; [reflexivity|]; split; [discriminate | intros Heq; contradiction]).
Qed.

Lemma checkBodyExpectation_bytes_witness :
  let e := mkMockRequest 0 (Some "POST") (Some [x61]) "mock://hostname/x" ∅ None true None in
  let a := mkRequest "POST" "mock://hostname/x" ∅ (ReqBytes [x62]) in
  (e.(body) = Some [x61] /\ a.(rq_Body) = ReqBytes [x62]) /\
  exists rpt, checkBodyExpectation e a = Ret rpt /\ (rpt = [] <-> [x61] = [x62]).
Proof.
  intros e a. split; [split; reflexivity|].
  apply checkBodyExpectation_bytes; reflexivity.
Defined.

Lemma omapM_concat_nil {A B} (f : A -> outcome (list B)) l :
  obind (omapM f l) (fun rpts => Ret (List.concat rpts)) = Ret [] <-> Forall (fun x => f x = Ret []) l.
Proof.
  induction l as [|x l IH]; simpl; [split; [constructor | reflexivity]|].
  split.
  - destruct (f x) as [y|p] eqn:Ef; simpl; [|discriminate].
    destruct (omapM f l) as [ys|p] eqn:El; simpl; [|discriminate].
    intros H. injection H as H. apply app_eq_nil in H as [-> H].
    constructor; [exact Ef|]. apply IH. simpl. rewrite H. reflexivity.
  - intros H. inversion H as [|? ? Hx Hl]; subst. rewrite Hx. simpl.
    apply IH in Hl. destruct (omapM f l) as [ys|p]; simpl in *; [|discriminate].
    injection Hl as Hl. rewrite Hl. reflexivity.
Qed.

Lemma dump_headers_cons_not_nil h s :
  obind (dump_headers h) (fun d => Ret (s :: d)) <> Ret [].
Proof. destruct (dump_headers h); simpl; discriminate. Qed.

Lemma check_header_ok a k v :
  check_header a k v = Ret [] <->
  exists x rest, a.(rq_Header) !! k = Some (x :: rest) /\ (v = None \/ v = Some x).
Proof.
  unfold check_header.
  destruct (rq_Header a !! k) as [[|x rest]|] eqn:Ek; simpl.
  - split; [discriminate|]. intros (x & rest & H & _). discriminate.
  - destruct v as [w|].
    + destruct (String.eqb x w) eqn:Ex.
      * apply String.eqb_eq in Ex as ->. split; [|reflexivity].
        intros _. exists w, rest. split; [reflexivity | right; reflexivity].
      * split; [discriminate|]. intros (x' & rest' & H & [Hv|Hv]); [discriminate|].
        injection H as <- <-. injection Hv as ->. rewrite String.eqb_refl in Ex. discriminate.
    + split; [|reflexivity]. intros _. exists x, rest. split; [reflexivity | left; reflexivity].
  - split; [|intros (x & rest & H & _); discriminate].
    intros Hc; exfalso; destruct v; exact (dump_headers_cons_not_nil _ _ Hc).
Qed.

(** X23. The header check reports nothing exactly when every expected header
    key is present in the request (keys compared exactly) with at least one
    value, and the first value equals the expected value whenever one is
    given. *)
Theorem checkHeadersExpectation_ok e a :
  checkHeadersExpectation e a = Ret [] <->
  map_Forall (fun k v => exists x rest, a.(rq_Header) !! k = Some (x :: rest) /\ (v = None \/ v = Some x))
    e.(headers).
Proof.
  unfold checkHeadersExpectation. rewrite omapM_concat_nil, map_Forall_to_list.
  split; intros H; (eapply Forall_impl; [exact H|]); intros [k v]; simpl; apply check_header_ok.
Qed.

(** X24. After [Reset], [ExpectationsWereMet] succeeds and [Expect] is
    accepted again, returning index 0, whatever requests were made before. *)
Theorem Reset_restarts m meth path :
  ExpectationsWereMet (Reset m) = Ret None /\
  exists m', Expect meth path (Reset m) = (Ret 0%nat, m') /\ m'.(next) = 0%Z /\
             m'.(unexpected) = [] /\ length m'.(expectations) = 1%nat.
Proof.
  split; [reflexivity|].
  unfold Expect. cbn [Reset next hostname expectations unexpected mc_name].
  destruct (url_JoinPath_Some m.(hostname) path) as [u Hu]. rewrite Hu.
  eexists. split; [reflexivity|]. repeat split.
Qed.

(** X25. An expectation [WithHeader k v] on a fresh expectation is met by a
    request whose header was set with [request.Header k' v] for any [k']
    equal to the token key [k] up to letter case. *)
Theorem WithHeader_matches_request_Header k k' v h (a : Request) i m e :
  forallb validHeaderFieldByte (list_ascii_of_string k) = true ->
  map (canon_byte false) (list_ascii_of_string k) = map (canon_byte false) (list_ascii_of_string k') ->
  m.(expectations) !! i = Some e -> e.(headers) = ∅ ->
  a.(rq_Header) = snd (request.Header k' v h) ->
  exists e', (WithHeader i k (Some v) m).(expectations) !! i = Some e' /\
             checkHeadersExpectation e' a = Ret [].
Proof.
  intros Hv Hm He Hh Ha.
  unfold WithHeader, WithNonCanonicalHeader, update_expectation. cbn [expectations].
  rewrite list_lookup_alter_eq, He. eexists. split; [reflexivity|].
  apply checkHeadersExpectation_ok. cbn [headers]. rewrite Hh.
  apply map_Forall_insert_2; [|apply map_Forall_empty].
  exists v, []. split; [|right; reflexivity].
  rewrite Ha. unfold request.Header, Header_Set. simpl.
  rewrite (CanonicalMIMEHeaderKey_lower k k' Hv Hm), lookup_insert_eq. reflexivity.
Qed.

Lemma WithHeader_matches_request_Header_witness :
  let m := snd (ExpectGet "/x" (NewMockClient "mock")) in
  let e := mkMockRequest 0 (Some "GET") None "mock://hostname/x" ∅ None true None in
  let a := mkRequest "GET" "mock://hostname/x" (snd (request.Header "x-api-key" "s" ∅)) NilBody in
  (forallb validHeaderFieldByte (list_ascii_of_string "X-API-KEY") = true /\
   map (canon_byte false) (list_ascii_of_string "X-API-KEY") =
     map (canon_byte false) (list_ascii_of_string "x-api-key") /\
   m.(expectations) !! 0%nat = Some e /\ e.(headers) = ∅ /\
   a.(rq_Header) = snd (request.Header "x-api-key" "s" ∅)) /\
  exists e', (WithHeader 0 "X-API-KEY" (Some "s") m).(expectations) !! 0%nat = Some e' /\
             checkHeadersExpectation e' a = Ret [].
Proof.
  intros m e a. split; [repeat split; reflexivity|].
  apply (WithHeader_matches_request_Header "X-API-KEY" "x-api-key" "s" ∅ a 0 m e); reflexivity.
Defined.
